(** * NTA-FIX-Backend: threshold-protected content and hash anchoring

    A shallow embedding of the parts of the backend that carry the
    cryptographic and state-machine logic:

    - [src/utils/encryption.js]   (class [EncryptionService]),
    - [src/models/BlockchainTransaction.js] (retry state machine),
    - [src/services/BlockchainService.js]   ([verifyDataIntegrity]),
    - [src/models/Question.js]    ([getForExam]),
    - the exam-paper model        (share bookkeeping).

    The file first gives every definition of the embedding and then the
    lemmas and theorems about them. *)

From Stdlib Require Import ZArith Lia List String Ascii Bool DecimalString.
From Stdlib.Strings Require Import Byte.
From stdpp Require Import gmap strings list sorting.

Local Open Scope Z_scope.

(* ===================================================================== *)
(** * Part I.  Definitions                                               *)
(* ===================================================================== *)

(** ** The JavaScript platform

    What the sources take from Node.js itself: exceptions, buffers and
    their ['hex'] and ['utf8'] transcoding, [parseInt], truthiness of
    numbers and number-to-string conversion. *)

Module JS.

(** The outcome of evaluating a JavaScript expression: a value, or a
    thrown [Error] carrying its message. *)
Inductive completion (A : Type) : Type :=
| Normal (a : A)
| Throw (message : string).
Arguments Normal {A} a.
Arguments Throw {A} message.

(** Computations that write to the application logger ([logger.error],
    [logger.warn]) and may throw.  A log entry holds the level, the message
    and the text of the logged error (empty when there is none). *)
Record log_entry := {
  level : string;
  message : string;
  detail : string
}.
Definition Log : Type := list log_entry.
Definition Eff (A : Type) : Type := Log * completion A.

Definition ret {A} (a : A) : Eff A := ([], Normal a).
Definition throw {A} (message : string) : Eff A := ([], Throw message).
Definition lift {A} (c : completion A) : Eff A := ([], c).

Definition bind {A B} (m : Eff A) (k : A -> Eff B) : Eff B :=
  match m with
  | (l, Normal a) => let '(l', r) := k a in (l ++ l', r)
  | (l, Throw e) => (l, Throw e)
  end.

(** [try { body } catch (error) { handler error }]. *)
Definition try_catch {A} (body : Eff A) (handler : string -> Eff A) : Eff A :=
  match body with
  | (l, Normal a) => (l, Normal a)
  | (l, Throw e) => let '(l', r) := handler e in (l ++ l', r)
  end.

Definition logger_error (label error : string) : Eff unit :=
  ([{| level := "error"; message := label; detail := error |}], Normal tt).
Definition logger_warn (text : string) : Eff unit :=
  ([{| level := "warn"; message := text; detail := EmptyString |}], Normal tt).

Definition outcome {A} (m : Eff A) : completion A := snd m.
Definition logged {A} (m : Eff A) : Log := fst m.

(** A [Buffer] is a sequence of bytes. *)
Definition Buffer : Type := list byte.

Definition Z_of_byte (b : byte) : Z := Z.of_N (Byte.to_N b).
Definition byte_of_Z (z : Z) : byte :=
  match Byte.of_N (Z.to_N (z mod 256)) with
  | Some b => b
  | None => x00
  end.

(** *** ['hex'] transcoding *)

Definition hex_digit (n : N) : ascii :=
  if (n <? 10)%N then ascii_of_N (48 + n) else ascii_of_N (87 + n).

Definition hex_of_byte (b : byte) : string :=
  let n := Byte.to_N b in
  String (hex_digit (n / 16)) (String (hex_digit (n mod 16)) EmptyString).

(** [buf.toString('hex')]. *)
Fixpoint hex_encode (bs : Buffer) : string :=
  match bs with
  | [] => EmptyString
  | b :: rest => String.append (hex_of_byte b) (hex_encode rest)
  end.

Definition hex_value (c : ascii) : option N :=
  let n := N_of_ascii c in
  if ((48 <=? n) && (n <=? 57))%N then Some (n - 48)%N
  else if ((97 <=? n) && (n <=? 102))%N then Some (n - 87)%N
  else if ((65 <=? n) && (n <=? 70))%N then Some (n - 55)%N
  else None.

(** [Buffer.from(s, 'hex')]: pairs of hexadecimal digits are decoded until
    the first pair that is not one; a trailing single digit is dropped. *)
Fixpoint hex_decode (s : string) : Buffer :=
  match s with
  | String c1 (String c2 rest) =>
      match hex_value c1, hex_value c2 with
      | Some h, Some l => byte_of_Z (Z.of_N (16 * h + l)) :: hex_decode rest
      | _, _ => []
      end
  | _ => []
  end.

(** *** Strings and ['utf8'] transcoding

    A JavaScript string is a sequence of 16-bit code units. *)
Definition jsstring : Type := list Z.

Definition is_high_surrogate (u : Z) : bool := (0xD800 <=? u) && (u <=? 0xDBFF).
Definition is_low_surrogate (u : Z) : bool := (0xDC00 <=? u) && (u <=? 0xDFFF).

(** A string is well formed when every code unit is in range and every
    surrogate is half of a high/low pair. *)
Fixpoint well_formed (s : jsstring) : bool :=
  match s with
  | [] => true
  | u :: rest =>
      if is_high_surrogate u then
        match rest with
        | lo :: rest' => is_low_surrogate lo && well_formed rest'
        | [] => false
        end
      else if is_low_surrogate u then false
      else (0 <=? u) && (u <? 0x10000) && well_formed rest
  end.

(** Code points that are not surrogates. *)
Definition scalar_value (cp : Z) : Prop :=
  0 <= cp < 0xD800 \/ 0xE000 <= cp < 0x110000.

(** The UTF-8 bytes of one code point; [/ 64] is a shift by six bits and
    [mod 64] the mask [0x3F]. *)
Definition utf8_of_code_point (cp : Z) : Buffer :=
  if cp <? 0x80 then [byte_of_Z cp]
  else if cp <? 0x800 then
    [byte_of_Z (0xC0 + cp / 64); byte_of_Z (0x80 + cp mod 64)]
  else if cp <? 0x10000 then
    [byte_of_Z (0xE0 + cp / 4096); byte_of_Z (0x80 + (cp / 64) mod 64);
     byte_of_Z (0x80 + cp mod 64)]
  else
    [byte_of_Z (0xF0 + cp / 262144); byte_of_Z (0x80 + (cp / 4096) mod 64);
     byte_of_Z (0x80 + (cp / 64) mod 64); byte_of_Z (0x80 + cp mod 64)].

Definition replacement_character : Z := 0xFFFD.

(** [Buffer.from(s, 'utf8')]: surrogate pairs become one four-byte
    sequence, an unpaired surrogate is written as U+FFFD. *)
Fixpoint utf8_encode (s : jsstring) : Buffer :=
  match s with
  | [] => []
  | u :: rest =>
      if is_high_surrogate u then
        match rest with
        | lo :: rest' =>
            if is_low_surrogate lo then
              utf8_of_code_point (0x10000 + (u - 0xD800) * 1024 + (lo - 0xDC00))
                ++ utf8_encode rest'
            else utf8_of_code_point replacement_character ++ utf8_encode rest
        | [] => utf8_of_code_point replacement_character
        end
      else if is_low_surrogate u then
        utf8_of_code_point replacement_character ++ utf8_encode rest
      else utf8_of_code_point u ++ utf8_encode rest
  end.

(** The values a code unit takes. *)
Definition code_unit (u : Z) : Prop := 0 <= u < 0x10000.

(** [s.toWellFormed()]: the string with U+FFFD in place of every unpaired
    surrogate. *)
Fixpoint toWellFormed (s : jsstring) : jsstring :=
  match s with
  | [] => []
  | u :: rest =>
      if is_high_surrogate u then
        match rest with
        | lo :: rest' =>
            if is_low_surrogate lo then u :: lo :: toWellFormed rest'
            else replacement_character :: toWellFormed rest
        | [] => [replacement_character]
        end
      else if is_low_surrogate u then replacement_character :: toWellFormed rest
      else u :: toWellFormed rest
  end.

(** The UTF-16 code units of one code point. *)
Definition code_units_of (cp : Z) : jsstring :=
  if cp <? 0x10000 then [cp]
  else [0xD800 + (cp - 0x10000) / 1024; 0xDC00 + (cp - 0x10000) mod 1024].

(** State of the UTF-8 decoder: the code point being assembled, the number
    of continuation bytes still expected and the range allowed for the
    next byte. *)
Record decoder := {
  code_point : Z;
  bytes_needed : Z;
  lower_boundary : Z;
  upper_boundary : Z
}.

Definition decoder_init : decoder :=
  {| code_point := 0; bytes_needed := 0;
     lower_boundary := 0x80; upper_boundary := 0xBF |}.

(** A lead byte (or a single-byte character) seen in the initial state. *)
Definition decode_lead (b : Z) : jsstring * decoder :=
  if b <=? 0x7F then ([b], decoder_init)
  else if (0xC2 <=? b) && (b <=? 0xDF) then
    ([], {| code_point := b mod 32; bytes_needed := 1;
            lower_boundary := 0x80; upper_boundary := 0xBF |})
  else if (0xE0 <=? b) && (b <=? 0xEF) then
    ([], {| code_point := b mod 16; bytes_needed := 2;
            lower_boundary := if b =? 0xE0 then 0xA0 else 0x80;
            upper_boundary := if b =? 0xED then 0x9F else 0xBF |})
  else if (0xF0 <=? b) && (b <=? 0xF4) then
    ([], {| code_point := b mod 8; bytes_needed := 3;
            lower_boundary := if b =? 0xF0 then 0x90 else 0x80;
            upper_boundary := if b =? 0xF4 then 0x8F else 0xBF |})
  else ([replacement_character], decoder_init).

(** One byte through the decoder.  A byte that cannot continue the current
    sequence ends it with U+FFFD and is then read again as a lead byte. *)
Definition decode_step (d : decoder) (b : Z) : jsstring * decoder :=
  if bytes_needed d =? 0 then decode_lead b
  else if (lower_boundary d <=? b) && (b <=? upper_boundary d) then
    let cp := code_point d * 64 + b mod 64 in
    if bytes_needed d =? 1 then (code_units_of cp, decoder_init)
    else ([], {| code_point := cp; bytes_needed := bytes_needed d - 1;
                 lower_boundary := 0x80; upper_boundary := 0xBF |})
  else
    let '(out, d') := decode_lead b in (replacement_character :: out, d').

Fixpoint utf8_decode_from (d : decoder) (bs : Buffer) : jsstring :=
  match bs with
  | [] => if bytes_needed d =? 0 then [] else [replacement_character]
  | b :: rest =>
      let '(out, d') := decode_step d (Z_of_byte b) in
      out ++ utf8_decode_from d' rest
  end.

(** [buf.toString('utf8')]. *)
Definition utf8_decode (bs : Buffer) : jsstring := utf8_decode_from decoder_init bs.

(** A string literal of the sources, as code units (ASCII only). *)
Fixpoint code_units (s : string) : jsstring :=
  match s with
  | EmptyString => []
  | String c rest => Z.of_N (N_of_ascii c) :: code_units rest
  end.

(** *** Numbers

    Counters and configured sizes are JavaScript numbers holding integers;
    they are modelled by [Z], which is exact below 2^53.  [None] is [NaN]. *)
Definition number : Type := option Z.

Definition is_white_space (c : ascii) : bool :=
  let n := N_of_ascii c in
  ((n =? 9) || (n =? 10) || (n =? 11) || (n =? 12) || (n =? 13) || (n =? 32))%N.

Fixpoint skip_white_space (s : string) : string :=
  match s with
  | String c rest => if is_white_space c then skip_white_space rest else s
  | EmptyString => s
  end.

Definition digit_value (radix : N) (c : ascii) : option N :=
  let n := N_of_ascii c in
  let v := if ((48 <=? n) && (n <=? 57))%N then Some (n - 48)%N
           else if ((97 <=? n) && (n <=? 122))%N then Some (n - 87)%N
           else if ((65 <=? n) && (n <=? 90))%N then Some (n - 55)%N
           else None in
  match v with
  | Some d => if (d <? radix)%N then Some d else None
  | None => None
  end.

(** The value of the longest prefix of digits, [None] when it is empty. *)
Fixpoint parse_digits (radix : N) (acc : option N) (s : string) : option N :=
  match s with
  | String c rest =>
      match digit_value radix c with
      | Some d =>
          parse_digits radix
            (Some (match acc with Some a => a * radix + d | None => d end)%N) rest
      | None => acc
      end
  | EmptyString => acc
  end.

(** [parseInt(s)] without a radix: leading white space and a sign are
    skipped, a [0x] prefix selects base sixteen, parsing stops at the
    first character that is not a digit. *)
Definition parseInt (s : string) : number :=
  let s1 := skip_white_space s in
  let '(negative, s2) :=
    match s1 with
    | String "-" r => (true, r)
    | String "+" r => (false, r)
    | _ => (false, s1)
    end in
  let '(radix, s3) :=
    match s2 with
    | String "0" (String "x" r) => (16%N, r)
    | String "0" (String "X" r) => (16%N, r)
    | _ => (10%N, s2)
    end in
  match parse_digits radix None s3 with
  | Some n => Some (if negative then - Z.of_N n else Z.of_N n)
  | None => None
  end.

(** An environment variable: absent ([undefined]) or a string.
    [parseInt(undefined)] parses the text ["undefined"]. *)
Definition parseInt_env (v : option string) : number :=
  parseInt (match v with Some s => s | None => "undefined"%string end).

(** [x || d] on numbers: [NaN] and zero are falsy. *)
Definition or_default (x : number) (d : Z) : Z :=
  match x with
  | Some 0 => d
  | Some n => n
  | None => d
  end.

(** [`${n}`] for an integer. *)
Definition number_to_string (n : Z) : string :=
  NilZero.string_of_int (Z.to_int n).

(** The characters written by [hex_encode]: digits and [a] to [f]. *)
Definition is_lower_hex (c : ascii) : bool :=
  let n := N_of_ascii c in
  (((48 <=? n) && (n <=? 57)) || ((97 <=? n) && (n <=? 102)))%N.

(** *** JSON text

    [JSON.stringify] of a string of the model (ASCII text): the string
    between quotes, with the quote, the backslash and the control
    characters escaped. *)
Definition quotation_mark : ascii := ascii_of_N 34.

Definition json_escape (c : ascii) : string :=
  let n := N_of_ascii c in
  if (n =? 34)%N then String "\" (String quotation_mark EmptyString)
  else if (n =? 92)%N then "\\"
  else if (n =? 8)%N then "\b"
  else if (n =? 9)%N then "\t"
  else if (n =? 10)%N then "\n"
  else if (n =? 12)%N then "\f"
  else if (n =? 13)%N then "\r"
  else if (n <? 32)%N then
    String.append "\u00"
      (String (hex_digit (n / 16)) (String (hex_digit (n mod 16)) EmptyString))
  else String c EmptyString.

Fixpoint json_escape_all (s : string) : string :=
  match s with
  | EmptyString => EmptyString
  | String c rest => String.append (json_escape c) (json_escape_all rest)
  end.

Definition json_string (s : string) : string :=
  String quotation_mark
    (String.append (json_escape_all s) (String quotation_mark EmptyString)).

(** *** White space

    The code units [String.prototype.trim] removes (WhiteSpace and
    LineTerminator of ECMAScript). *)
Definition is_js_white_space (u : Z) : bool :=
  ((9 <=? u) && (u <=? 13)) || (u =? 32) || (u =? 0xA0) || (u =? 0x1680)
  || ((0x2000 <=? u) && (u <=? 0x200A)) || (u =? 0x2028) || (u =? 0x2029)
  || (u =? 0x202F) || (u =? 0x205F) || (u =? 0x3000) || (u =? 0xFEFF).

Fixpoint trim_start (s : jsstring) : jsstring :=
  match s with
  | u :: rest => if is_js_white_space u then trim_start rest else s
  | [] => []
  end.

(** [s.trim()]. *)
Definition trim (s : jsstring) : jsstring :=
  rev (trim_start (rev (trim_start s))).

End JS.

(** ** Libraries the encryption service is linked against

    Node's [crypto] module and the [shamir-secret-sharing] package are not
    part of the repository; the service is parameterised by them. *)

Module Crypto.
Import JS.

(** The operations of [crypto] behind [createCipher('aes-256-gcm', password)]
    and [createDecipher]: the password is turned into a key and an
    initialisation vector by [bytes_to_key] (OpenSSL's EVP_BytesToKey),
    [gcm_seal key iv plaintext] yields the ciphertext and the
    authentication tag, [gcm_open key iv ciphertext tag] yields the
    plaintext or nothing when the tag is refused (by [setAuthTag] for its
    length, or by [final]). *)
Record provider := {
  bytes_to_key : Buffer -> Buffer * Buffer;
  gcm_seal : Buffer -> Buffer -> Buffer -> Buffer * Buffer;
  gcm_open : Buffer -> Buffer -> Buffer -> Buffer -> option Buffer
}.

(** Opening what was sealed under the same key and vector gives the
    plaintext back. *)
Definition gcm_correct (p : provider) : Prop :=
  forall key iv plaintext,
    gcm_open p key iv (fst (gcm_seal p key iv plaintext))
                      (snd (gcm_seal p key iv plaintext)) = Some plaintext.

(** A string handed to [update(data, 'hex', ...)]: hex text of odd length
    is refused (it is an invalid argument), other text is decoded as
    [Buffer.from(data, 'hex')] decodes it. *)
Definition update_hex (data : string) : completion Buffer :=
  if Nat.even (String.length data) then Normal (hex_decode data)
  else Throw (String.append "The argument 'encoding' is invalid for data of length "
                (String.append (number_to_string (Z.of_nat (String.length data)))
                               ". Received 'hex'")).

(** The verdict of the cipher made from a password on a ciphertext and a
    tag. *)
Definition opens (p : provider) (password ciphertext tag : Buffer) : option Buffer :=
  gcm_open p (fst (bytes_to_key p password)) (snd (bytes_to_key p password))
    ciphertext tag.

(** The digests of [crypto]: [createHash('sha256')] and
    [createHmac('sha256', key)], on bytes. *)
Record digests := {
  sha256 : Buffer -> Buffer;
  hmac_sha256 : Buffer -> Buffer -> Buffer
}.

(** [crypto.timingSafeEqual(a, b)]: buffers of different lengths are an
    error. *)
Definition timingSafeEqual (a b : Buffer) : completion bool :=
  if bool_decide (length a = length b) then
    Normal (bool_decide (map Z_of_byte a = map Z_of_byte b))
  else Throw "Input buffers must have the same byte length".

End Crypto.

Module Shamir.
Import JS.

(** What a call of [combine] hands back: a buffer, or, from an async
    function, a promise. *)
Inductive combined :=
| buffer (bytes : Buffer)
| promise.

(** The module object [shamir] as the service uses it.
    [share random secret shares threshold] is the outcome of the call
    [shamir.share(secret, shares, threshold)] and [combine shares] that of
    [shamir.combine(shares)]; [random] stands for the coefficients drawn
    by the library. *)
Record library (Random : Type) := {
  share : Random -> Buffer -> Z -> Z -> completion (list Buffer);
  combine : list Buffer -> completion combined
}.
Arguments share {Random} _ _ _ _ _.
Arguments combine {Random} _ _.

(** The package [shamir-secret-sharing] that [package.json] requires: its
    module object has the members [split] and [combine], both async
    functions.  It has no member [share], so that call is a TypeError, and
    [combine] returns a promise at once, whatever it is given. *)
Definition published : library unit := {|
  share _ _ _ _ := Throw "shamir.share is not a function";
  combine _ := Normal promise
|}.

(** [reconstructed.toString('utf8')]: the text of a buffer; a promise has
    the [toString] of [Object.prototype]. *)
Definition toString_utf8 (reconstructed : combined) : jsstring :=
  match reconstructed with
  | buffer bytes => utf8_decode bytes
  | promise => code_units "[object Promise]"
  end.

(** The shares found at the positions [idx] of a list. *)
Definition pick {A} (l : list A) (idx : list nat) : list A :=
  omap (fun i => l !! i) idx.

(** A selection of positions of a list of [n] elements, without
    repetition. *)
Definition selection (n : nat) (idx : list nat) : Prop :=
  NoDup idx /\ Forall (fun i => (i < n)%nat) idx.

(** The policies a byte-wise scheme over GF(256) accepts. *)
Definition valid_policy (shares threshold : Z) : Prop :=
  2 <= threshold /\ threshold <= shares /\ shares <= 255.

(** What a package has to provide to be a threshold scheme: a non-empty
    secret is split under every valid policy into as many shares as asked
    for, and any selection of at least [threshold] of the shares of one
    split combines to the secret. *)
Record threshold_scheme {Random} (lib : library Random) : Prop := {
  share_total :
    forall random secret n t,
      valid_policy n t -> secret <> [] ->
      exists shares, share lib random secret n t = Normal shares
                     /\ Z.of_nat (length shares) = n;
  combine_share :
    forall random secret n t shares idx,
      share lib random secret n t = Normal shares ->
      selection (length shares) idx ->
      t <= Z.of_nat (length idx) ->
      combine lib (pick shares idx) = Normal (buffer secret)
}.


End Shamir.

(** ** [src/utils/encryption.js] *)

Module EncryptionService.
Import JS.

(** The variables of [process.env] read by the constructor. *)
Record Env := {
  ENCRYPTION_KEY : option string;
  SHAMIR_THRESHOLD : option string;
  SHAMIR_TOTAL_PARTS : option string
}.

Record t := {
  encryptionKey : string;
  threshold : Z;
  totalParts : Z
}.

(** The object returned by [encrypt]; all three fields are hex strings. *)
Record EncryptedData := {
  encrypted : string;
  iv : string;
  authTag : string
}.

(** One element of the array returned by [splitSecret]; its fields
    [threshold] and [totalParts] carry the prefix [share_] here. *)
Record ShareRecord := {
  id : Z;
  share : string;
  share_threshold : Z;
  share_totalParts : Z
}.

Definition constructor (env : Env) : completion t :=
  let threshold := or_default (parseInt_env (SHAMIR_THRESHOLD env)) 3 in
  let totalParts := or_default (parseInt_env (SHAMIR_TOTAL_PARTS env)) 5 in
  match ENCRYPTION_KEY env with
  | None | Some EmptyString =>
      Throw "ENCRYPTION_KEY is not defined in environment variables"
  | Some key =>
      Normal {| encryptionKey := key; threshold := threshold; totalParts := totalParts |}
  end.

Section Methods.
Context (crypto : Crypto.provider) {Random : Type} (shamir : Shamir.library Random).
Variable this : t.

(** [encrypt(data)]; [random_iv] is the value of [crypto.randomBytes(16)].
    The cipher is made by [createCipher], from the key alone. *)
Definition encrypt (random_iv : Buffer) (data : jsstring) : Eff EncryptedData :=
  try_catch
    (let key := hex_decode (encryptionKey this) in
     let iv := random_iv in
     let cipher := Crypto.bytes_to_key crypto key in
     let sealed := Crypto.gcm_seal crypto (fst cipher) (snd cipher) (utf8_encode data) in
     let encrypted := String.append (hex_encode (fst sealed)) EmptyString in
     let authTag := snd sealed in
     ret {| encrypted := encrypted; iv := hex_encode iv; authTag := hex_encode authTag |})
    (fun error =>
       bind (logger_error "Encryption error:" error)
            (fun _ => throw "Failed to encrypt data")).

(** [decrypt(encryptedData)].  The vector of the payload is decoded and not
    used; the decipher is made by [createDecipher], from the key alone.
    The tag is decoded by [Buffer.from], the ciphertext by [update]. *)
Definition decrypt (encryptedData : EncryptedData) : Eff jsstring :=
  try_catch
    (let key := hex_decode (encryptionKey this) in
     let iv := hex_decode (iv encryptedData) in
     let authTag := hex_decode (authTag encryptedData) in
     let decipher := Crypto.bytes_to_key crypto key in
     bind (lift (Crypto.update_hex (encrypted encryptedData)))
          (fun ciphertext =>
             match Crypto.gcm_open crypto (fst decipher) (snd decipher)
                     ciphertext authTag with
             | Some plaintext => ret (utf8_decode plaintext)
             | None => throw "Unsupported state or unable to authenticate data"
             end))
    (fun error =>
       bind (logger_error "Decryption error:" error)
            (fun _ => throw "Failed to decrypt data")).

(** [splitSecret(secret)]. *)
Definition splitSecret (random : Random) (secret : jsstring) : Eff (list ShareRecord) :=
  try_catch
    (let secretBuffer := utf8_encode secret in
     bind (lift (Shamir.share shamir random secretBuffer (totalParts this) (threshold this)))
          (fun shares =>
             ret (imap (fun index share =>
                          {| id := Z.of_nat index + 1;
                             share := hex_encode share;
                             share_threshold := threshold this;
                             share_totalParts := totalParts this |}) shares)))
    (fun error =>
       bind (logger_error "Secret splitting error:" error)
            (fun _ => throw "Failed to split secret")).

(** [reconstructSecret(shares)]. *)
Definition reconstructSecret (shares : list ShareRecord) : Eff jsstring :=
  try_catch
    (if Z.of_nat (length shares) <? threshold this then
       throw (String.append "Need at least "
                (String.append (number_to_string (threshold this))
                               " shares to reconstruct secret"))
     else
       let shareBuffers := map (fun share => hex_decode (EncryptionService.share share)) shares in
       bind (lift (Shamir.combine shamir shareBuffers))
            (fun reconstructed => ret (Shamir.toString_utf8 reconstructed)))
    (fun error =>
       bind (logger_error "Secret reconstruction error:" error)
            (fun _ => throw "Failed to reconstruct secret")).

End Methods.

(** The object returned by [prepareForBlockchain]. *)
Record Prepared := {
  prepared_encrypted : EncryptedData;
  hash : string;
  hmac : string;
  timestamp : string
}.

(** [JSON.stringify(encrypted)] for the object returned by [encrypt]. *)
Definition stringify_encrypted (e : EncryptedData) : jsstring :=
  code_units
    (String.append "{"
       (String.append (json_string "encrypted")
          (String.append ":"
             (String.append (json_string (encrypted e))
                (String.append ","
                   (String.append (json_string "iv")
                      (String.append ":"
                         (String.append (json_string (iv e))
                            (String.append ","
                               (String.append (json_string "authTag")
                                  (String.append ":"
                                     (String.append (json_string (authTag e)) "}")))))))))))).

Section Integrity.
Context (crypto : Crypto.provider) (digests : Crypto.digests).
Variable this : t.

(** [generateHash(data)]. *)
Definition generateHash (data : jsstring) : Eff string :=
  try_catch
    (ret (hex_encode (Crypto.sha256 digests (utf8_encode data))))
    (fun error =>
       bind (logger_error "Hash generation error:" error)
            (fun _ => throw "Failed to generate hash")).

(** [generateHMAC(data, key = this.encryptionKey)]; [None] is the omitted
    argument.  The key is text, taken as UTF-8. *)
Definition generateHMAC (data : jsstring) (key : option string) : Eff string :=
  let key := match key with Some k => k | None => encryptionKey this end in
  try_catch
    (ret (hex_encode (Crypto.hmac_sha256 digests (utf8_encode (code_units key))
                        (utf8_encode data))))
    (fun error =>
       bind (logger_error "HMAC generation error:" error)
            (fun _ => throw "Failed to generate HMAC")).

(** [verifyHMAC(data, hmac, key = this.encryptionKey)]. *)
Definition verifyHMAC (data : jsstring) (hmac : string) (key : option string) : Eff bool :=
  let key := match key with Some k => k | None => encryptionKey this end in
  try_catch
    (bind (generateHMAC data (Some key))
          (fun expectedHMAC =>
             lift (Crypto.timingSafeEqual (hex_decode hmac) (hex_decode expectedHMAC))))
    (fun error =>
       bind (logger_error "HMAC verification error:" error)
            (fun _ => ret false)).

(** [this.encrypt(JSON.stringify(data))], where [JSON.stringify] may have
    returned [undefined]: [cipher.update] then throws inside [encrypt]. *)
Definition encrypt_json (random_iv : Buffer) (json : option jsstring) : Eff EncryptedData :=
  match json with
  | Some text => encrypt crypto this random_iv text
  | None =>
      try_catch
        (throw "The data argument must be of type string or an instance of Buffer, TypedArray, or DataView. Received undefined")
        (fun error =>
           bind (logger_error "Encryption error:" error)
                (fun _ => throw "Failed to encrypt data"))
  end.

(** [prepareForBlockchain(data)]; [json] is the outcome of
    [JSON.stringify(data)] and [now] the value of
    [new Date().toISOString()]. *)
Definition prepareForBlockchain (random_iv : Buffer) (now : string)
    (json : completion (option jsstring)) : Eff Prepared :=
  try_catch
    (bind (lift json) (fun text =>
     bind (encrypt_json random_iv text) (fun encrypted =>
     bind (generateHash (stringify_encrypted encrypted)) (fun hash =>
     bind (generateHMAC (stringify_encrypted encrypted) None) (fun hmac =>
     ret {| prepared_encrypted := encrypted; hash := hash; hmac := hmac;
            timestamp := now |})))))
    (fun error =>
       bind (logger_error "Blockchain preparation error:" error)
            (fun _ => throw "Failed to prepare data for blockchain")).

End Integrity.

End EncryptionService.

(** ** [src/models/BlockchainTransaction.js] *)

Module BlockchainTransaction.
Import JS.

Inductive Status := pending | confirmed | failed | reverted.

#[global] Instance Status_eq_dec : EqDecision Status.
Proof. solve_decision. Defined.

(** A document of the collection, with the fields that the methods and
    the queries below read or write; dates are milliseconds since the
    epoch, an absent or [null] field is [None]. *)
Record t := {
  _id : Z;
  transactionId : string;
  entityType : string;
  entityId : string;
  dataHash : string;
  status : Status;
  blockNumber : option Z;
  blockHash : option string;
  slot : option Z;
  confirmationStatus : string;
  errorMessage : option string;
  retryCount : Z;
  maxRetries : Z;
  submittedAt : Z;
  confirmedAt : option Z;
  failedAt : option Z
}.

(** Assignments to the fields the methods write. *)
Definition set_status (v : Status) (d : t) : t :=
  {| _id := _id d; transactionId := transactionId d; entityType := entityType d;
     entityId := entityId d; dataHash := dataHash d; status := v;
     blockNumber := blockNumber d; blockHash := blockHash d; slot := slot d;
     confirmationStatus := confirmationStatus d; errorMessage := errorMessage d;
     retryCount := retryCount d; maxRetries := maxRetries d;
     submittedAt := submittedAt d; confirmedAt := confirmedAt d; failedAt := failedAt d |}.

Definition set_block (number : option Z) (hash : option string) (s : option Z) (d : t) : t :=
  {| _id := _id d; transactionId := transactionId d; entityType := entityType d;
     entityId := entityId d; dataHash := dataHash d; status := status d;
     blockNumber := number; blockHash := hash; slot := s;
     confirmationStatus := confirmationStatus d; errorMessage := errorMessage d;
     retryCount := retryCount d; maxRetries := maxRetries d;
     submittedAt := submittedAt d; confirmedAt := confirmedAt d; failedAt := failedAt d |}.

Definition set_confirmationStatus (v : string) (d : t) : t :=
  {| _id := _id d; transactionId := transactionId d; entityType := entityType d;
     entityId := entityId d; dataHash := dataHash d; status := status d;
     blockNumber := blockNumber d; blockHash := blockHash d; slot := slot d;
     confirmationStatus := v; errorMessage := errorMessage d;
     retryCount := retryCount d; maxRetries := maxRetries d;
     submittedAt := submittedAt d; confirmedAt := confirmedAt d; failedAt := failedAt d |}.

Definition set_errorMessage (v : option string) (d : t) : t :=
  {| _id := _id d; transactionId := transactionId d; entityType := entityType d;
     entityId := entityId d; dataHash := dataHash d; status := status d;
     blockNumber := blockNumber d; blockHash := blockHash d; slot := slot d;
     confirmationStatus := confirmationStatus d; errorMessage := v;
     retryCount := retryCount d; maxRetries := maxRetries d;
     submittedAt := submittedAt d; confirmedAt := confirmedAt d; failedAt := failedAt d |}.

Definition set_retryCount (v : Z) (d : t) : t :=
  {| _id := _id d; transactionId := transactionId d; entityType := entityType d;
     entityId := entityId d; dataHash := dataHash d; status := status d;
     blockNumber := blockNumber d; blockHash := blockHash d; slot := slot d;
     confirmationStatus := confirmationStatus d; errorMessage := errorMessage d;
     retryCount := v; maxRetries := maxRetries d;
     submittedAt := submittedAt d; confirmedAt := confirmedAt d; failedAt := failedAt d |}.

Definition set_confirmedAt (v : option Z) (d : t) : t :=
  {| _id := _id d; transactionId := transactionId d; entityType := entityType d;
     entityId := entityId d; dataHash := dataHash d; status := status d;
     blockNumber := blockNumber d; blockHash := blockHash d; slot := slot d;
     confirmationStatus := confirmationStatus d; errorMessage := errorMessage d;
     retryCount := retryCount d; maxRetries := maxRetries d;
     submittedAt := submittedAt d; confirmedAt := v; failedAt := failedAt d |}.

Definition set_failedAt (v : option Z) (d : t) : t :=
  {| _id := _id d; transactionId := transactionId d; entityType := entityType d;
     entityId := entityId d; dataHash := dataHash d; status := status d;
     blockNumber := blockNumber d; blockHash := blockHash d; slot := slot d;
     confirmationStatus := confirmationStatus d; errorMessage := errorMessage d;
     retryCount := retryCount d; maxRetries := maxRetries d;
     submittedAt := submittedAt d; confirmedAt := confirmedAt d; failedAt := v |}.

(** The instance methods.  [now] is the value of [new Date()]; each method
    ends with [this.save()], which stores the document it returns. *)

Definition markConfirmed (now : Z) (number : Z) (hash : string) (s : option Z) (this : t) : t :=
  let this := set_status confirmed this in
  let this := set_block (Some number) (Some hash) s this in
  let this := set_confirmedAt (Some now) this in
  set_confirmationStatus "confirmed" this.

Definition markFinalized (this : t) : t :=
  set_confirmationStatus "finalized" this.

Definition markFailed (now : Z) (error : string) (this : t) : t :=
  let this := set_status failed this in
  let this := set_errorMessage (Some error) this in
  set_failedAt (Some now) this.

Definition incrementRetry (now : Z) (this : t) : t :=
  let this := set_retryCount (retryCount this + 1) this in
  if retryCount this >=? maxRetries this then
    let this := set_status failed this in
    let this := set_errorMessage (Some "Max retries exceeded"%string) this in
    set_failedAt (Some now) this
  else this.

Definition resetForRetry (this : t) : t :=
  let this := set_status pending this in
  let this := set_errorMessage None this in
  set_failedAt None this.

(** The collection, in its natural (insertion) order. *)
Definition Collection : Type := list t.

(** [doc.save()]: the stored document with the same [_id] is replaced, a
    new document is appended. *)
Fixpoint save (doc : t) (docs : Collection) : Collection :=
  match docs with
  | [] => [doc]
  | d :: rest => if _id d =? _id doc then doc :: rest else d :: save doc rest
  end.

(** [.sort({ key: 1 })], stable. *)
Fixpoint insert_by (key : t -> Z) (x : t) (l : list t) : list t :=
  match l with
  | [] => [x]
  | y :: rest => if key x <? key y then x :: l else y :: insert_by key x rest
  end.

Definition sort_by (key : t -> Z) (l : list t) : list t :=
  fold_right (insert_by key) [] l.

(** [findPending()]: the documents an automatic retry picks up. *)
Definition findPending (docs : Collection) : list t :=
  sort_by submittedAt (filter (fun d => status d = pending) docs).

(** [n] failed submission attempts in a row, at the given times. *)
Fixpoint retries (times : list Z) (this : t) : t :=
  match times with
  | [] => this
  | now :: later => retries later (incrementRetry now this)
  end.

(** The virtual [confirmationTime]. *)
Definition confirmationTime (this : t) : option Z :=
  match confirmedAt this with
  | None => None
  | Some at_ => Some (at_ - submittedAt this)
  end.

(** [findByEntity(entityType, entityId)]: [.sort({ submittedAt: -1 })]. *)
Definition findByEntity (docs : Collection) (type id : string) : list t :=
  sort_by (fun d => - submittedAt d)
    (filter (fun d => entityType d = type /\ entityId d = id) docs).

(** [findByDateRange(startDate, endDate)]. *)
Definition findByDateRange (docs : Collection) (startDate endDate : Z) : list t :=
  sort_by (fun d => - submittedAt d)
    (filter (fun d => startDate <= submittedAt d /\ submittedAt d <= endDate) docs).

End BlockchainTransaction.

(** ** [src/services/BlockchainService.js] *)

Module BlockchainService.
Import JS.
Import BlockchainTransaction.

(** The database behind the model: reachable, with the documents of the
    collection, or failing every query with an error. *)
Inductive Database :=
| Connected (docs : Collection)
| Unreachable (error : string).

(** [BlockchainTransaction.findOne(query)] without a sort: the first
    matching document in natural order, [null] when there is none. *)
Definition findOne (db : Database) (query : t -> bool) : completion (option t) :=
  match db with
  | Connected docs => Normal (List.find query docs)
  | Unreachable error => Throw error
  end.

(** The query [{ entityId, entityType, status: 'confirmed' }]. *)
Definition confirmed_for (entityId entityType : string) (tx : t) : bool :=
  String.eqb (BlockchainTransaction.entityId tx) entityId
  && String.eqb (BlockchainTransaction.entityType tx) entityType
  && bool_decide (status tx = confirmed).

Definition verifyDataIntegrity (db : Database) (entityId entityType localHash : string)
  : Eff bool :=
  try_catch
    (bind (lift (findOne db (confirmed_for entityId entityType)))
          (fun transaction =>
             match transaction with
             | None =>
                 bind (logger_warn
                         (String.append "No blockchain transaction found for "
                            (String.append entityType (String.append " " entityId))))
                      (fun _ => ret false)
             | Some transaction => ret (String.eqb (dataHash transaction) localHash)
             end))
    (fun error =>
       bind (logger_error "Error verifying data integrity:" error)
            (fun _ => ret false)).

(** The record the specification calls authoritative: among the confirmed
    records of the entity, the one submitted last (the later one in the
    log when two carry the same time). *)
Definition latest_confirmed (docs : Collection) (entityId entityType : string) : option t :=
  fold_left
    (fun best tx =>
       if confirmed_for entityId entityType tx then
         match best with
         | Some b => if submittedAt b <=? submittedAt tx then Some tx else best
         | None => Some tx
         end
       else best)
    docs None.

End BlockchainService.

(** ** [src/models/Question.js] *)

Module Question.

#[local] Set Warnings "-register-all".

(** Values held by the fields of a document or of a plain object. *)
Inductive value :=
| VString (s : string)
| VNumber (n : Z)
| VBoolean (b : bool)
| VDate (ms : Z)
| VObjectId (oid : string)
| VObject (fields : list (string * value))
| VArray (items : list value).

(** Objects live in a heap and are referred to by their location, so that
    a write through one reference is seen through every other. *)
Abbreviation location := positive.
Abbreviation object := (gmap string value).
Abbreviation heap := (gmap positive (gmap string value)).

(** [delete o.key]. *)
Definition delete_property (o : location) (key : string) (h : heap) : heap :=
  alter (delete key) o h.

Section Methods.

(** The fields of the plain object Mongoose builds from a document
    ([toObject] with the virtuals of the schema). *)
Variable plain : object -> object.

(** [this.toObject()]: a new object, copied from the document. *)
Definition toObject (h : heap) (this : location) : option (heap * location) :=
  match h !! this with
  | Some doc =>
      let o := fresh (dom h) in
      Some (<[o := plain doc]> h, o)
  | None => None
  end.

Definition getForExam (h : heap) (this : location) : option (heap * location) :=
  match toObject h this with
  | Some (h, questionData) =>
      let h := delete_property questionData "correctAnswer" h in
      let h := delete_property questionData "explanation" h in
      let h := delete_property questionData "blockchainHash" h in
      let h := delete_property questionData "blockchainTxId" h in
      let h := delete_property questionData "verifiedBy" h in
      let h := delete_property questionData "verifiedAt" h in
      Some (h, questionData)
  | None => None
  end.

End Methods.

(** The fields withheld from an exam. *)
Definition withheld : list string :=
  ["correctAnswer"; "explanation"; "blockchainHash"; "blockchainTxId";
   "verifiedBy"; "verifiedAt"]%string.

(** The six deletions of [getForExam], on the fields of an object. *)
Definition exam_fields (data : object) : object :=
  delete "verifiedAt"
    (delete "verifiedBy"
       (delete "blockchainTxId"
          (delete "blockchainHash"
             (delete "explanation" (delete "correctAnswer" data))))).






End Question.

(** ** [src/services/QuestionService.js] *)

Module QuestionService.
Import JS.

(** The question data handed to [uploadQuestion]: every field is a string
    or absent ([undefined]). *)
Record Options := {
  A : option jsstring;
  B : option jsstring;
  C : option jsstring;
  D : option jsstring
}.

Record QuestionData := {
  subject : option jsstring;
  topic : option jsstring;
  questionText : option jsstring;
  options : option Options;
  correctAnswer : option jsstring
}.

(** [!v] is false: the string is present and not empty. *)
Definition truthy (v : option jsstring) : bool :=
  match v with
  | Some (_ :: _) => true
  | _ => false
  end.

Definition text_length (v : option jsstring) : Z :=
  match v with
  | Some s => Z.of_nat (length s)
  | None => 0
  end.

(** [for (const x of l) { check x }]: the first error ends the loop. *)
Fixpoint for_each {X} (check : X -> completion unit) (l : list X) : completion unit :=
  match l with
  | [] => Normal tt
  | x :: rest =>
      match check x with
      | Normal _ => for_each check rest
      | Throw e => Throw e
      end
  end.

Definition requiredOptions : list (string * (Options -> option jsstring)) :=
  [("A", A); ("B", B); ("C", C); ("D", D)]%string.

Definition validateQuestionData (questionData : QuestionData) : completion unit :=
  let requiredFields :=
    [("subject", truthy (subject questionData));
     ("topic", truthy (topic questionData));
     ("questionText", truthy (questionText questionData));
     ("options", bool_decide (is_Some (options questionData)));
     ("correctAnswer", truthy (correctAnswer questionData))]%string in
  match for_each (fun field =>
                    if negb (snd field)
                    then Throw (String.append "Missing required field: " (fst field))
                    else Normal tt) requiredFields with
  | Throw e => Throw e
  | Normal _ =>
  match options questionData with
  | None => Throw "Cannot read properties of undefined"
  | Some options =>
  match for_each (fun option =>
                    if negb (truthy (snd option options))
                       || bool_decide (trim (default [] (snd option options)) = [])
                    then Throw (String.append "Missing or empty option: " (fst option))
                    else Normal tt) requiredOptions with
  | Throw e => Throw e
  | Normal _ =>
  if negb (bool_decide (correctAnswer questionData
                          ∈ map (fun option => Some (code_units (fst option))) requiredOptions))
  then Throw "Correct answer must be A, B, C, or D"
  else if text_length (questionText questionData) >? 2000
  then Throw "Question text cannot exceed 2000 characters"
  else
    for_each (fun option =>
                if text_length (snd option options) >? 500
                then Throw (String.append "Option "
                              (String.append (fst option) " cannot exceed 500 characters"))
                else Normal tt) requiredOptions
  end end end.

(** A string with a code unit that is not white space. *)
Definition not_blank (v : option jsstring) : Prop :=
  exists s u, v = Some s /\ u ∈ s /\ is_js_white_space u = false.

(** What the data of an accepted question satisfy. *)
Definition acceptable (d : QuestionData) : Prop :=
  truthy (subject d) = true /\ truthy (topic d) = true
  /\ truthy (questionText d) = true
  /\ text_length (questionText d) <= 2000
  /\ (exists o, options d = Some o
       /\ Forall (fun v => not_blank v /\ text_length v <= 500) [A o; B o; C o; D o])
  /\ (exists letter, letter ∈ ["A"; "B"; "C"; "D"]%string
                      /\ correctAnswer d = Some (code_units letter)).

End QuestionService.

(** ** The exam-paper model ([src/unnamed/part_003]) *)

Module ExamPaper.
Import JS.

(** An element of [shamirShares]. *)
Record Share := {
  shareId : Z;
  share : string;
  holder : string;
  distributedAt : Z;
  isUsed : bool
}.

(** The fields of a paper that the share methods read and write. *)
Record t := {
  paperId : string;
  shamirShares : list Share;
  threshold : Z;
  totalShares : Z
}.

Definition set_isUsed (v : bool) (s : Share) : Share :=
  {| shareId := shareId s; share := share s; holder := holder s;
     distributedAt := distributedAt s; isUsed := v |}.

Definition set_shamirShares (v : list Share) (p : t) : t :=
  {| paperId := paperId p; shamirShares := v;
     threshold := threshold p; totalShares := totalShares p |}.

(** [addShamirShare(shareId, share, holder)]; [isUsed] takes its default. *)
Definition addShamirShare (now : Z) (shareId : Z) (share holder : string) (this : t) : t :=
  set_shamirShares
    (shamirShares this ++
       [{| shareId := shareId; share := share; holder := holder;
           distributedAt := now; isUsed := false |}])
    this.

(** [share.isUsed = true] on the first share found with the given id. *)
Fixpoint use_first (id : Z) (shares : list Share) : option (list Share) :=
  match shares with
  | [] => None
  | s :: rest =>
      if shareId s =? id then Some (set_isUsed true s :: rest)
      else option_map (cons s) (use_first id rest)
  end.

Definition markShareAsUsed (shareId : Z) (this : t) : completion t :=
  match use_first shareId (shamirShares this) with
  | Some shares => Normal (set_shamirShares shares this)
  | None => Throw "Share not found"
  end.

Definition getAvailableShares (this : t) : list Share :=
  List.filter (fun share => negb (isUsed share)) (shamirShares this).

Definition hasEnoughShares (this : t) : bool :=
  let availableShares := getAvailableShares this in
  Z.of_nat (length availableShares) >=? threshold this.

(** The number of shares with a given value of the [isUsed] flag. *)
Fixpoint count_flag (flag : bool) (shares : list Share) : Z :=
  match shares with
  | [] => 0
  | s :: rest => (if Bool.eqb (isUsed s) flag then 1 else 0) + count_flag flag rest
  end.

End ExamPaper.

(** ** Reference instances of the libraries

    Small executable instances of the two library interfaces, used to run
    the service on concrete inputs. *)

Module Reference.
Import JS.

Definition checksum (bs : Buffer) : Z :=
  fold_right (fun b acc => (Z_of_byte b + acc) mod 256) 0 bs.

Definition shift_bytes (k : Z) (bs : Buffer) : Buffer :=
  map (fun b => byte_of_Z (Z_of_byte b + k)) bs.

Definition tag_of (key iv ciphertext : Buffer) : list Z :=
  [checksum (key ++ iv ++ ciphertext); Z.of_nat (length ciphertext) mod 256].

(** A byte-shift cipher with a checksum for a tag: it has the interface of
    the authenticated cipher and opens what it sealed. *)
Definition cipher : Crypto.provider := {|
  Crypto.bytes_to_key password := (password, rev password);
  Crypto.gcm_seal key iv plaintext :=
    let ciphertext := shift_bytes (checksum (key ++ iv) + 1) plaintext in
    (ciphertext, map byte_of_Z (tag_of key iv ciphertext));
  Crypto.gcm_open key iv ciphertext tag :=
    if bool_decide (map Z_of_byte tag = tag_of key iv ciphertext)
    then Some (shift_bytes (- (checksum (key ++ iv) + 1)) ciphertext)
    else None
|}.

(** A library that checks the policy and then hands every holder the
    secret behind the number of the share; [combine] reads the secret off
    the first share.  It reconstructs like a threshold scheme (it hides
    nothing). *)
Definition copying : Shamir.library unit := {|
  Shamir.share _ secret n t :=
    if bool_decide (2 <= t /\ t <= n /\ n <= 255) then
      match secret with
      | [] => Throw "secret must be a non-empty buffer"
      | _ => Normal (map (fun i => byte_of_Z (Z.of_nat i + 1) :: secret)
                         (seq 0 (Z.to_nat n)))
      end
    else Throw "invalid policy";
  Shamir.combine shares :=
    match shares with
    | (_ :: secret) :: _ => Normal (Shamir.buffer secret)
    | _ => Throw "no share to combine"
    end
|}.

(** Digests of 32 bytes made from the checksum. *)
Definition digests : Crypto.digests := {|
  Crypto.sha256 data :=
    map (fun i => byte_of_Z (checksum data + Z.of_nat i)) (seq 0 32);
  Crypto.hmac_sha256 key data :=
    map (fun i => byte_of_Z (checksum (key ++ data) + 7 * Z.of_nat i)) (seq 0 32)
|}.




Definition env (key threshold parts : string) : EncryptionService.Env :=
  {| EncryptionService.ENCRYPTION_KEY := Some key;
     EncryptionService.SHAMIR_THRESHOLD := Some threshold;
     EncryptionService.SHAMIR_TOTAL_PARTS := Some parts |}.

(** The service configured as in [env.example]: threshold 3 of 5 parts. *)
Definition service : EncryptionService.t :=
  {| EncryptionService.encryptionKey := "00112233445566778899aabbccddeeff";
     EncryptionService.threshold := 3;
     EncryptionService.totalParts := 5 |}.

(** The same service under a key of 32 bytes, the size of an AES-256
    key. *)
Definition service256 : EncryptionService.t :=
  {| EncryptionService.encryptionKey :=
       "000102030405060708090a0b0c0d0e0f101112131415161718191a1b1c1d1e1f";
     EncryptionService.threshold := 3;
     EncryptionService.totalParts := 5 |}.

(** A record of the transaction collection as it is first stored: pending,
    never retried, with the default of three retries. *)
Definition submission (n : Z) (entityType entityId hash : string) (time : Z)
  : BlockchainTransaction.t :=
  {| BlockchainTransaction._id := n;
     BlockchainTransaction.transactionId := String.append "TX" (number_to_string n);
     BlockchainTransaction.entityType := entityType;
     BlockchainTransaction.entityId := entityId;
     BlockchainTransaction.dataHash := hash;
     BlockchainTransaction.status := BlockchainTransaction.pending;
     BlockchainTransaction.blockNumber := None;
     BlockchainTransaction.blockHash := None;
     BlockchainTransaction.slot := None;
     BlockchainTransaction.confirmationStatus := "processed";
     BlockchainTransaction.errorMessage := None;
     BlockchainTransaction.retryCount := 0;
     BlockchainTransaction.maxRetries := 3;
     BlockchainTransaction.submittedAt := time;
     BlockchainTransaction.confirmedAt := None;
     BlockchainTransaction.failedAt := None |}.

(** The same record once confirmed, as [storeData] saves it. *)
Definition anchor (n : Z) (entityType entityId hash : string) (time : Z)
  : BlockchainTransaction.t :=
  BlockchainTransaction.set_confirmationStatus "confirmed"
    (BlockchainTransaction.set_confirmedAt (Some time)
       (BlockchainTransaction.set_status BlockchainTransaction.confirmed
          (submission n entityType entityId hash time))).

(** A question document and the plain object Mongoose makes of it (the
    fields and the [id] virtual). *)
Definition question : gmap string Question.value :=
  list_to_map
    [("questionId", Question.VString "Q1"); ("questionText", Question.VString "2 + 2 = ?");
     ("options", Question.VObject [("A", Question.VString "3"); ("B", Question.VString "4")]);
     ("correctAnswer", Question.VString "B"); ("explanation", Question.VString "sum");
     ("marks", Question.VNumber 1); ("blockchainHash", Question.VString "ab12");
     ("verifiedAt", Question.VDate 1700000000000)]%string.

Definition plain (doc : gmap string Question.value) : gmap string Question.value :=
  <["id" := Question.VString "652f"]> doc.

(** A paper with threshold 2 whose three shares have been handed out. *)
Definition paper : ExamPaper.t :=
  {| ExamPaper.paperId := "P1";
     ExamPaper.shamirShares :=
       [{| ExamPaper.shareId := 1; ExamPaper.share := "01aa"; ExamPaper.holder := "u1";
           ExamPaper.distributedAt := 10; ExamPaper.isUsed := false |};
        {| ExamPaper.shareId := 2; ExamPaper.share := "02bb"; ExamPaper.holder := "u2";
           ExamPaper.distributedAt := 10; ExamPaper.isUsed := false |};
        {| ExamPaper.shareId := 3; ExamPaper.share := "03cc"; ExamPaper.holder := "u3";
           ExamPaper.distributedAt := 10; ExamPaper.isUsed := false |}];
     ExamPaper.threshold := 2;
     ExamPaper.totalShares := 3 |}.

End Reference.

(* ===================================================================== *)
(** * Part II.  Properties                                               *)
(* ===================================================================== *)

(** Linear arithmetic with division and remainder by constants. *)
Ltac dlia := Z.to_euclidean_division_equations; lia.

(** Settles the comparisons of the goal that follow from the context. *)
Ltac decide_tests :=
  repeat match goal with
  | |- context [Z.leb ?a ?b] =>
      first [ replace (Z.leb a b) with true by (symmetry; apply Z.leb_le; dlia)
            | replace (Z.leb a b) with false by (symmetry; apply Z.leb_gt; dlia) ]
  | |- context [Z.ltb ?a ?b] =>
      first [ replace (Z.ltb a b) with true by (symmetry; apply Z.ltb_lt; dlia)
            | replace (Z.ltb a b) with false by (symmetry; apply Z.ltb_ge; dlia) ]
  | |- context [Z.eqb ?a ?b] =>
      first [ replace (Z.eqb a b) with true by (symmetry; apply Z.eqb_eq; dlia)
            | replace (Z.eqb a b) with false by (symmetry; apply Z.eqb_neq; dlia) ]
  end.

(** ** Transcoding *)

Section Transcoding.
Import JS.

Lemma Z_of_byte_of_Z z : 0 <= z < 256 -> Z_of_byte (byte_of_Z z) = z.
Proof.
  intros Hz. unfold Z_of_byte, byte_of_Z.
  rewrite Z.mod_small by lia.
  pose proof (to_of_N_option_map (Z.to_N z)) as H.
  destruct (Byte.of_N (Z.to_N z)) as [b|]; simpl in H.
  - destruct (N.leb_spec (Z.to_N z) 255); [|discriminate].
    injection H as ->. lia.
  - destruct (N.leb_spec (Z.to_N z) 255); [discriminate | lia].
Qed.

Lemma Z_of_byte_range b : 0 <= Z_of_byte b < 256.
Proof. unfold Z_of_byte. pose proof (Byte.to_N_bounded b). lia. Qed.

Lemma byte_of_Z_of_byte b : byte_of_Z (Z_of_byte b) = b.
Proof.
  pose proof (Z_of_byte_range b) as Hr. unfold byte_of_Z.
  rewrite Z.mod_small by exact Hr. unfold Z_of_byte.
  rewrite N2Z.id, Byte.of_to_N. reflexivity.
Qed.

Lemma byte_of_Z_mod z : byte_of_Z (z mod 256) = byte_of_Z z.
Proof. unfold byte_of_Z. rewrite Z.mod_mod by lia. reflexivity. Qed.

Lemma Z_of_byte_of_Z_mod z : Z_of_byte (byte_of_Z z) = z mod 256.
Proof.
  rewrite <- byte_of_Z_mod. apply Z_of_byte_of_Z.
  apply Z.mod_pos_bound. lia.
Qed.

(** Decoding the two digits written for a byte gives the byte back. *)
Lemma hex_decode_byte b rest :
  hex_decode (String.append (hex_of_byte b) rest) = b :: hex_decode rest.
Proof. destruct b; reflexivity. Qed.

Lemma hex_roundtrip (bs : Buffer) : hex_decode (hex_encode bs) = bs.
Proof.
  induction bs as [|b bs IH]; [reflexivity|].
  cbn [hex_encode]. rewrite hex_decode_byte, IH. reflexivity.
Qed.

Lemma append_empty (s : string) : String.append s EmptyString = s.
Proof.
  induction s as [|c s IH]; [reflexivity|].
  change (String c (String.append s EmptyString) = String c s).
  rewrite IH. reflexivity.
Qed.

Lemma hex_encode_length (bs : Buffer) :
  String.length (hex_encode bs) = (2 * length bs)%nat.
Proof.
  induction bs as [|b bs IH]; [reflexivity|].
  cbn [hex_encode]. unfold hex_of_byte.
  change (String.append (String ?a (String ?b EmptyString)) ?r) with (String a (String b r)).
  cbn [String.length length]. rewrite IH. lia.
Qed.

(** Hex text of even length is decoded by [update] as by [Buffer.from]. *)
Lemma update_hex_even data :
  Nat.even (String.length data) = true -> Crypto.update_hex data = Normal (hex_decode data).
Proof. intros H. unfold Crypto.update_hex. rewrite H. reflexivity. Qed.

Lemma update_hex_encode (bs : Buffer) : Crypto.update_hex (hex_encode bs) = Normal bs.
Proof.
  rewrite update_hex_even, hex_roundtrip; [reflexivity|].
  rewrite hex_encode_length. apply Nat.even_spec. exists (length bs). reflexivity.
Qed.

End Transcoding.

Section Utf8.
Import JS.

Lemma decode_step_init b : decode_step decoder_init b = decode_lead b.
Proof. reflexivity. Qed.

Lemma decode_step_last d b :
  bytes_needed d = 1 -> lower_boundary d <= b <= upper_boundary d ->
  decode_step d b = (code_units_of (code_point d * 64 + b mod 64), decoder_init).
Proof. intros Hn Hb. unfold decode_step. rewrite Hn. decide_tests. reflexivity. Qed.

Lemma decode_step_more d b :
  1 < bytes_needed d -> lower_boundary d <= b <= upper_boundary d ->
  decode_step d b =
  ([], {| code_point := code_point d * 64 + b mod 64;
          bytes_needed := bytes_needed d - 1;
          lower_boundary := 0x80; upper_boundary := 0xBF |}).
Proof. intros Hn Hb. unfold decode_step. decide_tests. reflexivity. Qed.

Lemma decode_lead_ascii b : 0 <= b <= 0x7F -> decode_lead b = ([b], decoder_init).
Proof. intros H. unfold decode_lead. decide_tests. reflexivity. Qed.

Lemma decode_lead_two b :
  0xC2 <= b <= 0xDF ->
  decode_lead b = ([], {| code_point := b mod 32; bytes_needed := 1;
                          lower_boundary := 0x80; upper_boundary := 0xBF |}).
Proof. intros H. unfold decode_lead. decide_tests. reflexivity. Qed.

Lemma decode_lead_three b :
  0xE0 <= b <= 0xEF ->
  decode_lead b = ([], {| code_point := b mod 16; bytes_needed := 2;
            lower_boundary := if b =? 0xE0 then 0xA0 else 0x80;
            upper_boundary := if b =? 0xED then 0x9F else 0xBF |}).
Proof.
  intros H. unfold decode_lead.
  replace (b <=? 127) with false by (symmetry; apply Z.leb_gt; lia).
  replace (b <=? 223) with false by (symmetry; apply Z.leb_gt; lia).
  replace (224 <=? b) with true by (symmetry; apply Z.leb_le; lia).
  replace (b <=? 239) with true by (symmetry; apply Z.leb_le; lia).
  rewrite andb_false_r. reflexivity.
Qed.

Lemma decode_lead_four b :
  0xF0 <= b <= 0xF4 ->
  decode_lead b = ([], {| code_point := b mod 8; bytes_needed := 3;
            lower_boundary := if b =? 0xF0 then 0x90 else 0x80;
            upper_boundary := if b =? 0xF4 then 0x8F else 0xBF |}).
Proof.
  intros H. unfold decode_lead.
  replace (b <=? 127) with false by (symmetry; apply Z.leb_gt; lia).
  replace (b <=? 223) with false by (symmetry; apply Z.leb_gt; lia).
  replace (b <=? 239) with false by (symmetry; apply Z.leb_gt; lia).
  replace (240 <=? b) with true by (symmetry; apply Z.leb_le; lia).
  replace (b <=? 244) with true by (symmetry; apply Z.leb_le; lia).
  rewrite !andb_false_r. reflexivity.
Qed.

Ltac projections :=
  cbn [bytes_needed code_point lower_boundary upper_boundary].

Ltac split_boundaries :=
  repeat match goal with
  | |- context [if Z.eqb ?a ?b then _ else _] => destruct (Z.eqb_spec a b)
  end.

Lemma decode_one_byte cp rest :
  0 <= cp < 0x80 ->
  utf8_decode_from decoder_init (utf8_of_code_point cp ++ rest)
  = code_units_of cp ++ utf8_decode_from decoder_init rest.
Proof.
  intros H. unfold utf8_of_code_point, code_units_of. decide_tests.
  cbn [app utf8_decode_from]. rewrite Z_of_byte_of_Z by lia.
  rewrite decode_step_init, decode_lead_ascii by lia. reflexivity.
Qed.

Lemma decode_two_bytes cp rest :
  0x80 <= cp < 0x800 ->
  utf8_decode_from decoder_init (utf8_of_code_point cp ++ rest)
  = code_units_of cp ++ utf8_decode_from decoder_init rest.
Proof.
  intros H. unfold utf8_of_code_point. decide_tests.
  cbn [app utf8_decode_from]. rewrite !Z_of_byte_of_Z by dlia.
  rewrite decode_step_init, decode_lead_two by dlia. cbn [app].
  rewrite decode_step_last by (projections; dlia). projections.
  f_equal. f_equal. dlia.
Qed.

Lemma decode_three_bytes cp rest :
  0x800 <= cp < 0xD800 \/ 0xE000 <= cp < 0x10000 ->
  utf8_decode_from decoder_init (utf8_of_code_point cp ++ rest)
  = code_units_of cp ++ utf8_decode_from decoder_init rest.
Proof.
  intros H. unfold utf8_of_code_point. decide_tests.
  cbn [app utf8_decode_from]. rewrite !Z_of_byte_of_Z by dlia.
  rewrite decode_step_init, decode_lead_three by dlia. cbn [app].
  rewrite decode_step_more by (projections; split_boundaries; dlia).
  projections. cbn [app].
  rewrite decode_step_last by (projections; dlia). projections.
  f_equal. f_equal. dlia.
Qed.

Lemma decode_four_bytes cp rest :
  0x10000 <= cp < 0x110000 ->
  utf8_decode_from decoder_init (utf8_of_code_point cp ++ rest)
  = code_units_of cp ++ utf8_decode_from decoder_init rest.
Proof.
  intros H. unfold utf8_of_code_point. decide_tests.
  cbn [app utf8_decode_from]. rewrite !Z_of_byte_of_Z by dlia.
  rewrite decode_step_init, decode_lead_four by dlia. cbn [app].
  rewrite decode_step_more by (projections; split_boundaries; dlia).
  projections. cbn [app].
  rewrite decode_step_more by (projections; dlia).
  projections. cbn [app].
  rewrite decode_step_last by (projections; dlia). projections.
  f_equal. f_equal. dlia.
Qed.

Lemma decode_code_point cp rest :
  scalar_value cp ->
  utf8_decode_from decoder_init (utf8_of_code_point cp ++ rest)
  = code_units_of cp ++ utf8_decode_from decoder_init rest.
Proof.
  intros [H|H].
  - destruct (Z_lt_ge_dec cp 0x80); [apply decode_one_byte; lia|].
    destruct (Z_lt_ge_dec cp 0x800); [apply decode_two_bytes; lia|].
    apply decode_three_bytes; lia.
  - destruct (Z_lt_ge_dec cp 0x10000); [apply decode_three_bytes; lia|].
    apply decode_four_bytes; lia.
Qed.

Lemma utf8_roundtrip_app (s : jsstring) : forall rest,
  well_formed s = true ->
  utf8_decode_from decoder_init (utf8_encode s ++ rest)
  = s ++ utf8_decode_from decoder_init rest.
Proof.
  induction s as [s IH] using (induction_ltof1 _ (@length Z)). unfold ltof in IH.
  intros rest Hwf. destruct s as [|u s]; [reflexivity|].
  cbn [well_formed utf8_encode] in *.
  destruct (is_high_surrogate u) eqn:Hhi.
  - destruct s as [|lo s]; [discriminate|].
    apply andb_true_iff in Hwf as [Hlo Hwf]. rewrite Hlo.
    unfold is_high_surrogate, is_low_surrogate in *.
    rewrite <- app_assoc, decode_code_point by (unfold scalar_value; lia).
    rewrite IH by (cbn; auto; lia).
    unfold code_units_of. decide_tests. cbn [app]. f_equal; [dlia|]. f_equal. dlia.
  - destruct (is_low_surrogate u) eqn:Hlo; [discriminate|].
    apply andb_true_iff in Hwf as [Hr Hwf].
    unfold is_high_surrogate, is_low_surrogate in *.
    rewrite <- app_assoc, decode_code_point by (unfold scalar_value; lia).
    rewrite IH by (cbn; auto; lia).
    unfold code_units_of. decide_tests. reflexivity.
Qed.

(** Text without unpaired surrogates survives the passage through
    UTF-8. *)
Lemma utf8_roundtrip (s : jsstring) :
  well_formed s = true -> utf8_decode (utf8_encode s) = s.
Proof.
  intros H. unfold utf8_decode.
  rewrite <- (app_nil_r (utf8_encode s)), utf8_roundtrip_app by exact H.
  cbn. apply app_nil_r.
Qed.

(** The well-formed version of a string is well formed, has the same
    UTF-8 bytes, and is the string itself when that is well formed. *)
Lemma toWellFormed_well_formed (s : jsstring) :
  Forall code_unit s -> well_formed (toWellFormed s) = true.
Proof.
  induction s as [s IH] using (induction_ltof1 _ (@length Z)). unfold ltof in IH.
  intros Hs. destruct s as [|u s]; [reflexivity|].
  apply Forall_cons in Hs as [Hu Hs]. unfold code_unit in Hu.
  cbn [toWellFormed].
  destruct (is_high_surrogate u) eqn:Hhi.
  - destruct s as [|lo s]; [reflexivity|].
    destruct (is_low_surrogate lo) eqn:Hlo.
    + cbn [well_formed]. rewrite Hhi, Hlo. apply Forall_cons in Hs as [_ Hs].
      apply IH; [cbn; lia | exact Hs].
    + change (well_formed (replacement_character :: ?l)) with (well_formed l).
      apply IH; [cbn; lia | exact Hs].
  - destruct (is_low_surrogate u) eqn:Hlo.
    + change (well_formed (replacement_character :: ?l)) with (well_formed l).
      apply IH; [cbn; lia | exact Hs].
    + cbn [well_formed]. rewrite Hhi, Hlo.
      rewrite IH by (cbn; auto; lia).
      replace (0 <=? u) with true by (symmetry; apply Z.leb_le; lia).
      replace (u <? 65536) with true by (symmetry; apply Z.ltb_lt; lia).
      reflexivity.
Qed.

Lemma utf8_encode_toWellFormed (s : jsstring) :
  utf8_encode (toWellFormed s) = utf8_encode s.
Proof.
  induction s as [s IH] using (induction_ltof1 _ (@length Z)). unfold ltof in IH.
  destruct s as [|u s]; [reflexivity|].
  cbn [toWellFormed utf8_encode].
  destruct (is_high_surrogate u) eqn:Hhi.
  - destruct s as [|lo s]; [reflexivity|].
    destruct (is_low_surrogate lo) eqn:Hlo.
    + cbn [utf8_encode]. rewrite Hhi, Hlo, IH by (cbn; lia). reflexivity.
    + change (utf8_encode (replacement_character :: ?l))
        with (utf8_of_code_point replacement_character ++ utf8_encode l).
      rewrite IH by (cbn; lia). reflexivity.
  - destruct (is_low_surrogate u) eqn:Hlo.
    + change (utf8_encode (replacement_character :: ?l))
        with (utf8_of_code_point replacement_character ++ utf8_encode l).
      rewrite IH by (cbn; lia). reflexivity.
    + cbn [utf8_encode]. rewrite Hhi, Hlo, IH by (cbn; lia). reflexivity.
Qed.

Lemma toWellFormed_fixed (s : jsstring) :
  well_formed s = true -> toWellFormed s = s.
Proof.
  induction s as [s IH] using (induction_ltof1 _ (@length Z)). unfold ltof in IH.
  intros Hwf. destruct s as [|u s]; [reflexivity|].
  cbn [toWellFormed well_formed] in *.
  destruct (is_high_surrogate u).
  - destruct s as [|lo s]; [discriminate|].
    apply andb_true_iff in Hwf as [Hlo Hwf]. rewrite Hlo, IH by (cbn; auto; lia).
    reflexivity.
  - destruct (is_low_surrogate u); [discriminate|].
    apply andb_true_iff in Hwf as [_ Hwf]. rewrite IH by (cbn; auto; lia).
    reflexivity.
Qed.

Lemma toWellFormed_fixed_iff (s : jsstring) :
  Forall code_unit s -> (toWellFormed s = s <-> well_formed s = true).
Proof.
  intros Hs. split; [|apply toWellFormed_fixed].
  intros H. rewrite <- H. apply toWellFormed_well_formed, Hs.
Qed.

(** Through UTF-8 and back, a string comes out well formed: every
    unpaired surrogate has become U+FFFD. *)
Lemma utf8_roundtrip_any (s : jsstring) :
  Forall code_unit s -> utf8_decode (utf8_encode s) = toWellFormed s.
Proof.
  intros Hs. rewrite <- utf8_encode_toWellFormed.
  apply utf8_roundtrip, toWellFormed_well_formed, Hs.
Qed.

(** The literals of the sources are strings of code units. *)
Lemma code_units_in_range (s : string) : Forall code_unit (code_units s).
Proof.
  induction s as [|c s IH]; [constructor|]. cbn [code_units]. constructor; [|exact IH].
  unfold code_unit. pose proof (N_ascii_bounded c). lia.
Qed.

Lemma utf8_of_code_point_nonempty cp : utf8_of_code_point cp <> [].
Proof.
  unfold utf8_of_code_point.
  destruct (cp <? 128); [discriminate|].
  destruct (cp <? 2048); [discriminate|].
  destruct (cp <? 65536); discriminate.
Qed.

Lemma utf8_encode_nonempty (s : jsstring) : s <> [] -> utf8_encode s <> [].
Proof.
  destruct s as [|u s]; [congruence|]. intros _ H.
  cbn [utf8_encode] in H.
  assert (Hne : forall cp l, utf8_of_code_point cp ++ l <> []).
  { intros cp l Hl. apply app_eq_nil in Hl as [Hl _].
    exact (utf8_of_code_point_nonempty cp Hl). }
  destruct (is_high_surrogate u).
  - destruct s as [|lo s].
    + exact (utf8_of_code_point_nonempty _ H).
    + destruct (is_low_surrogate lo); exact (Hne _ _ H).
  - destruct (is_low_surrogate u); exact (Hne _ _ H).
Qed.

End Utf8.

(** ** The reference instances satisfy the contracts of the libraries *)

Section ReferenceInstances.
Import JS.

Lemma checksum_range bs : 0 <= Reference.checksum bs < 256.
Proof.
  destruct bs as [|b bs]; cbn [Reference.checksum fold_right]; [lia|].
  apply Z.mod_pos_bound. lia.
Qed.

Lemma byte_of_Z_congruent a b : a mod 256 = b mod 256 -> byte_of_Z a = byte_of_Z b.
Proof. intros H. rewrite <- (byte_of_Z_mod a), <- (byte_of_Z_mod b), H. reflexivity. Qed.

Lemma shift_bytes_back k bs :
  Reference.shift_bytes (- k) (Reference.shift_bytes k bs) = bs.
Proof.
  unfold Reference.shift_bytes. rewrite map_map.
  induction bs as [|b bs IH]; [reflexivity|].
  cbn [map]. rewrite IH. f_equal.
  rewrite Z_of_byte_of_Z_mod.
  rewrite <- (byte_of_Z_of_byte b) at 2. apply byte_of_Z_congruent.
  rewrite Z.add_opp_r, Zminus_mod_idemp_l. f_equal. lia.
Qed.

Lemma cipher_correct : Crypto.gcm_correct Reference.cipher.
Proof.
  intros key iv plaintext.
  cbn [Reference.cipher Crypto.gcm_seal Crypto.gcm_open fst snd].
  rewrite bool_decide_eq_true_2.
  - rewrite shift_bytes_back. reflexivity.
  - unfold Reference.tag_of. cbn [map].
    rewrite !Z_of_byte_of_Z; [reflexivity | | apply checksum_range].
    apply Z.mod_pos_bound. lia.
Qed.

Lemma copying_share random secret n t shares :
  Shamir.share Reference.copying random secret n t = Normal shares ->
  2 <= t /\ secret <> [] /\
  shares = map (fun i => byte_of_Z (Z.of_nat i + 1) :: secret) (seq 0 (Z.to_nat n)).
Proof.
  cbn. case_bool_decide as Hp; [|discriminate].
  destruct secret as [|b secret]; [discriminate|].
  intros [= <-]. split; [lia|]. split; [discriminate | reflexivity].
Qed.

Lemma copying_scheme : Shamir.threshold_scheme Reference.copying.
Proof.
  split.
  - intros random secret n t Hp Hs. cbn.
    rewrite bool_decide_eq_true_2 by exact Hp.
    destruct secret as [|b secret]; [congruence|].
    eexists. split; [reflexivity|].
    rewrite length_map, length_seq. destruct Hp. lia.
  - intros random secret n t shares idx Hshare [_ Hidx] Ht.
    apply copying_share in Hshare as (Ht2 & Hs & ->).
    destruct idx as [|i idx]; [cbn in Ht; lia|].
    apply Forall_cons in Hidx as [Hi _].
    rewrite length_map, length_seq in Hi.
    unfold Shamir.pick. cbn [omap list_omap].
    rewrite list_lookup_fmap, lookup_seq_lt by exact Hi. reflexivity.
Qed.

End ReferenceInstances.

(** ** The encryption service *)

Section Selections.
Import JS.

Lemma pick_length {A} (l : list A) idx :
  Forall (fun i => (i < length l)%nat) idx -> length (Shamir.pick l idx) = length idx.
Proof.
  unfold Shamir.pick. induction 1 as [|i idx Hi _ IH]; [reflexivity|].
  cbn [omap list_omap]. apply lookup_lt_is_Some_2 in Hi as [x ->].
  cbn [length]. f_equal. exact IH.
Qed.

(** Selecting among the records made from the shares and reading the
    shares back is selecting among the shares. *)
Lemma pick_imap {A B} (f : nat -> A -> B) (g : B -> A) (l : list A) idx :
  (forall i x, g (f i x) = x) ->
  map g (Shamir.pick (imap f l) idx) = Shamir.pick l idx.
Proof.
  intros Hgf. unfold Shamir.pick. induction idx as [|i idx IH]; [reflexivity|].
  cbn [omap list_omap]. rewrite list_lookup_imap.
  destruct (l !! i) as [x|]; cbn [fmap option_fmap option_map map]; [|exact IH].
  rewrite Hgf, IH. reflexivity.
Qed.

End Selections.

Section EncryptionProperties.
Import JS EncryptionService.
Context (crypto : Crypto.provider) {Random : Type} (shamir : Shamir.library Random).

(** What [encrypt] returns, for every random vector. *)
Lemma encrypt_returns this random_iv data :
  encrypt crypto this random_iv data =
  ret {| encrypted :=
           hex_encode (fst (Crypto.gcm_seal crypto
                              (fst (Crypto.bytes_to_key crypto (hex_decode (encryptionKey this))))
                              (snd (Crypto.bytes_to_key crypto (hex_decode (encryptionKey this))))
                              (utf8_encode data)));
         iv := hex_encode random_iv;
         authTag :=
           hex_encode (snd (Crypto.gcm_seal crypto
                              (fst (Crypto.bytes_to_key crypto (hex_decode (encryptionKey this))))
                              (snd (Crypto.bytes_to_key crypto (hex_decode (encryptionKey this))))
                              (utf8_encode data))) |}.
Proof. unfold encrypt. cbn [try_catch ret]. rewrite append_empty. reflexivity. Qed.

(** [decrypt] on a ciphertext text of even length: the verdict of the
    cipher on the decoded bytes decides. *)
Lemma decrypt_even this payload :
  Nat.even (String.length (encrypted payload)) = true ->
  decrypt crypto this payload =
  match Crypto.opens crypto (hex_decode (encryptionKey this))
          (hex_decode (encrypted payload)) (hex_decode (authTag payload)) with
  | Some plaintext => ret (utf8_decode plaintext)
  | None =>
      ([{| level := "error"; message := "Decryption error:";
           detail := "Unsupported state or unable to authenticate data" |}],
       Throw "Failed to decrypt data")
  end.
Proof.
  intros Heven. unfold decrypt, Crypto.opens.
  rewrite (update_hex_even _ Heven). cbn [lift bind].
  destruct (Crypto.gcm_open crypto _ _ _ _); reflexivity.
Qed.

(** [decrypt] on a ciphertext text of odd length: [update] refuses it. *)
Lemma decrypt_odd this payload :
  Nat.even (String.length (encrypted payload)) = false ->
  decrypt crypto this payload =
  ([{| level := "error"; message := "Decryption error:";
       detail := String.append "The argument 'encoding' is invalid for data of length "
                   (String.append
                      (number_to_string (Z.of_nat (String.length (encrypted payload))))
                      ". Received 'hex'") |}],
   Throw "Failed to decrypt data").
Proof.
  intros Hodd. unfold decrypt, Crypto.update_hex. rewrite Hodd. reflexivity.
Qed.

(** [decrypt] releases a plaintext only when the cipher accepted the tag. *)
Lemma decrypt_fails_closed this payload :
  Crypto.gcm_open crypto
    (fst (Crypto.bytes_to_key crypto (hex_decode (encryptionKey this))))
    (snd (Crypto.bytes_to_key crypto (hex_decode (encryptionKey this))))
    (hex_decode (encrypted payload)) (hex_decode (authTag payload)) = None ->
  outcome (decrypt crypto this payload) = Throw "Failed to decrypt data".
Proof.
  intros H. destruct (Nat.even (String.length (encrypted payload))) eqn:Heven.
  - rewrite (decrypt_even _ _ Heven). unfold Crypto.opens. rewrite H. reflexivity.
  - rewrite (decrypt_odd _ _ Heven). reflexivity.
Qed.

(** Decrypting what [encrypt] returned, with anything for the vector. *)
Lemma decrypt_encrypted this data nonce :
  Crypto.gcm_correct crypto ->
  Forall code_unit data ->
  decrypt crypto this
    {| encrypted :=
         hex_encode (fst (Crypto.gcm_seal crypto
                            (fst (Crypto.bytes_to_key crypto (hex_decode (encryptionKey this))))
                            (snd (Crypto.bytes_to_key crypto (hex_decode (encryptionKey this))))
                            (utf8_encode data)));
       iv := nonce;
       authTag :=
         hex_encode (snd (Crypto.gcm_seal crypto
                            (fst (Crypto.bytes_to_key crypto (hex_decode (encryptionKey this))))
                            (snd (Crypto.bytes_to_key crypto (hex_decode (encryptionKey this))))
                            (utf8_encode data))) |}
  = ret (toWellFormed data).
Proof.
  intros Hgcm Hdata. unfold decrypt. cbn [encrypted authTag iv].
  rewrite update_hex_encode. cbn [lift bind].
  rewrite hex_roundtrip, Hgcm. cbn [ret try_catch app].
  rewrite utf8_roundtrip_any by exact Hdata. reflexivity.
Qed.

(** What [splitSecret] returns when the library returns shares. *)
Lemma splitSecret_returns this random secret shares :
  Shamir.share shamir random (utf8_encode secret) (totalParts this) (threshold this)
    = Normal shares ->
  splitSecret shamir this random secret =
  ret (imap (fun index share =>
               {| id := Z.of_nat index + 1; share := hex_encode share;
                  share_threshold := threshold this;
                  share_totalParts := totalParts this |}) shares).
Proof. intros H. unfold splitSecret. rewrite H. reflexivity. Qed.

Lemma splitSecret_throws this random secret error :
  Shamir.share shamir random (utf8_encode secret) (totalParts this) (threshold this)
    = Throw error ->
  splitSecret shamir this random secret =
  ([{| level := "error"; message := "Secret splitting error:"; detail := error |}],
   Throw "Failed to split secret").
Proof. intros H. unfold splitSecret. rewrite H. reflexivity. Qed.

(** What [reconstructSecret] returns for enough shares that combine. *)
Lemma reconstructSecret_returns this records reconstructed :
  threshold this <= Z.of_nat (length records) ->
  Shamir.combine shamir (map (fun r => hex_decode (share r)) records)
    = Normal reconstructed ->
  reconstructSecret shamir this records = ret (Shamir.toString_utf8 reconstructed).
Proof.
  intros Hn Hc. unfold reconstructSecret.
  replace (Z.of_nat (length records) <? threshold this) with false
    by (symmetry; apply Z.ltb_ge; exact Hn).
  rewrite Hc. reflexivity.
Qed.

(** With a library that offers [share] and a synchronous [combine] and is
    a threshold scheme, [reconstructSecret] returns the well-formed
    version of the secret from every selection of at least [threshold] of
    the shares [splitSecret] returned, whichever shares are selected; and
    under a valid policy [splitSecret] returns the configured number of
    shares for a non-empty secret. *)
Lemma reconstruct_any_quorum this random secret :
  Shamir.threshold_scheme shamir ->
  Forall code_unit secret ->
  (forall shares,
     outcome (splitSecret shamir this random secret) = Normal shares ->
     forall idx,
       Shamir.selection (length shares) idx ->
       threshold this <= Z.of_nat (length idx) ->
       outcome (reconstructSecret shamir this (Shamir.pick shares idx))
       = Normal (toWellFormed secret))
  /\ (Shamir.valid_policy (totalParts this) (threshold this) ->
      secret <> [] ->
      exists shares,
        outcome (splitSecret shamir this random secret) = Normal shares
        /\ Z.of_nat (length shares) = totalParts this).
Proof.
  intros Hscheme Hsecret. split.
  - intros records Hsplit idx Hsel Hquorum.
    destruct (Shamir.share shamir random (utf8_encode secret)
                (totalParts this) (threshold this)) as [buffers|error] eqn:Hshare.
    + rewrite (splitSecret_returns this random secret buffers Hshare) in Hsplit.
      cbn [outcome ret snd] in Hsplit. injection Hsplit as <-.
      rewrite length_imap in Hsel.
      rewrite (reconstructSecret_returns this _ (Shamir.buffer (utf8_encode secret))).
      * cbn [outcome ret snd Shamir.toString_utf8].
        rewrite utf8_roundtrip_any by exact Hsecret. reflexivity.
      * rewrite pick_length; [exact Hquorum|].
        rewrite length_imap. exact (proj2 Hsel).
      * rewrite pick_imap by (intros; apply hex_roundtrip).
        exact (Shamir.combine_share shamir Hscheme random _ _ _ buffers idx
                 Hshare Hsel Hquorum).
    + rewrite (splitSecret_throws this random secret error Hshare) in Hsplit.
      discriminate.
  - intros Hpolicy Hne.
    destruct (Shamir.share_total shamir Hscheme random (utf8_encode secret)
                (totalParts this) (threshold this) Hpolicy
                (utf8_encode_nonempty secret Hne)) as (buffers & Hshare & Hlen).
    eexists. rewrite (splitSecret_returns this random secret buffers Hshare).
    split; [reflexivity|]. rewrite length_imap. exact Hlen.
Qed.

(** The service checks no policy itself.  The constructor takes the
    configured threshold and number of parts, replacing one that is
    absent, not a number or zero by 3, respectively 5; [splitSecret]
    fails, producing no shares, exactly when the library call throws. *)
Lemma split_delegates_policy_check env this random secret :
  constructor env = Normal this ->
  threshold this = or_default (parseInt_env (SHAMIR_THRESHOLD env)) 3
  /\ totalParts this = or_default (parseInt_env (SHAMIR_TOTAL_PARTS env)) 5
  /\ threshold this <> 0 /\ totalParts this <> 0
  /\ (outcome (splitSecret shamir this random secret) = Throw "Failed to split secret"
      <-> exists error,
            Shamir.share shamir random (utf8_encode secret)
              (totalParts this) (threshold this) = Throw error)
  /\ (forall records,
        outcome (splitSecret shamir this random secret) = Normal records ->
        exists shares,
          Shamir.share shamir random (utf8_encode secret)
            (totalParts this) (threshold this) = Normal shares
          /\ length records = length shares).
Proof.
  intros Hnew.
  assert (Hdefault : forall x d, d <> 0 -> or_default x d <> 0).
  { intros [[| |]|] d Hd; cbn; congruence. }
  assert (Hfields : threshold this = or_default (parseInt_env (SHAMIR_THRESHOLD env)) 3
                    /\ totalParts this = or_default (parseInt_env (SHAMIR_TOTAL_PARTS env)) 5).
  { unfold constructor in Hnew.
    destruct (ENCRYPTION_KEY env) as [[|c key]|]; try discriminate.
    injection Hnew as <-. split; reflexivity. }
  destruct Hfields as [Ht Hn].
  split; [exact Ht|]. split; [exact Hn|].
  split; [rewrite Ht; apply Hdefault; lia|].
  split; [rewrite Hn; apply Hdefault; lia|].
  destruct (Shamir.share shamir random (utf8_encode secret)
              (totalParts this) (threshold this)) as [shares|error] eqn:Hshare.
  - rewrite (splitSecret_returns this random secret shares Hshare).
    cbn [outcome ret snd]. split.
    + split; [discriminate | intros [e He]; discriminate].
    + intros records [= <-]. exists shares. split; [reflexivity | apply length_imap].
  - rewrite (splitSecret_throws this random secret error Hshare).
    cbn [outcome snd]. split.
    + split; [intros _; exists error; reflexivity | reflexivity].
    + intros records H. discriminate.
Qed.



(** The reference cipher accepts a tag only for the ciphertext, the key
    and the vector it was computed from. *)
Lemma cipher_refuses key iv ciphertext tag :
  map Z_of_byte tag <> Reference.tag_of key iv ciphertext ->
  Crypto.gcm_open Reference.cipher key iv ciphertext tag = None.
Proof.
  intros H. cbn [Reference.cipher Crypto.gcm_open].
  rewrite bool_decide_eq_false_2 by exact H. reflexivity.
Qed.

End EncryptionProperties.

Section EncryptionClaims.
Import JS EncryptionService.
Context (crypto : Crypto.provider) {Random : Type} (shamir : Shamir.library Random).

(** C1 (what the code does instead).  The service calls [shamir.share] and
    reads the result of [shamir.combine] as a buffer.  The package it
    requires has no [share] and an async [combine]: [splitSecret] fails
    for every secret under every policy, having logged the TypeError, and
    [reconstructSecret], given at least [threshold] shares, returns the
    text of a promise object, whatever the shares are. *)
Theorem published_package_neither_splits_nor_combines
    this random secret (shares : list ShareRecord) :
  splitSecret Shamir.published this random secret =
  ([{| level := "error"; message := "Secret splitting error:";
       detail := "shamir.share is not a function" |}],
   Throw "Failed to split secret")
  /\ (threshold this <= Z.of_nat (length shares) ->
      reconstructSecret Shamir.published this shares
      = ret (code_units "[object Promise]")).
Proof.
  split; [reflexivity|]. intros Hquorum.
  apply (reconstructSecret_returns Shamir.published this shares Shamir.promise Hquorum).
  reflexivity.
Qed.

(** C2 (as amended).  With a cipher that opens what it sealed, decrypting
    the payload [encrypt] returned for a text gives the well-formed
    version of the text, under every key and for every random vector:
    the text with U+FFFD in place of each unpaired surrogate, which is the
    text itself exactly when it is well formed. *)
Theorem decrypt_after_encrypt this random_iv data :
  Crypto.gcm_correct crypto ->
  Forall code_unit data ->
  (exists payload,
     outcome (encrypt crypto this random_iv data) = Normal payload
     /\ outcome (decrypt crypto this payload) = Normal (toWellFormed data))
  /\ (toWellFormed data = data <-> well_formed data = true).
Proof.
  intros Hgcm Hdata. split; [|apply toWellFormed_fixed_iff, Hdata].
  rewrite encrypt_returns. eexists. split; [reflexivity|].
  cbn [outcome ret snd]. rewrite decrypt_encrypted by assumption. reflexivity.
Qed.

(** C3 (what the code does instead).  The vector drawn by [encrypt] takes
    no part in the encryption: ciphertext and tag are the same for every
    vector, which is only copied into the payload; and [decrypt] gives the
    same result whatever vector the payload carries. *)
Theorem nonce_not_bound_to_cipher this data :
  (exists ciphertext tag,
     forall random_iv,
       encrypt crypto this random_iv data =
       ret {| encrypted := ciphertext; iv := hex_encode random_iv; authTag := tag |})
  /\ (forall payload nonce,
        decrypt crypto this
          {| encrypted := encrypted payload; iv := nonce; authTag := authTag payload |}
        = decrypt crypto this payload).
Proof.
  split.
  - eexists _, _. intros random_iv. apply encrypt_returns.
  - intros payload nonce. reflexivity.
Qed.


(** C5.  Given fewer shares than the threshold, [reconstructSecret] throws
    (the shortage is what it logs) and returns no secret; the library is
    not called. *)
Theorem reconstruct_needs_quorum this (shares : list ShareRecord) :
  Z.of_nat (length shares) < threshold this ->
  reconstructSecret shamir this shares =
  ([{| level := "error";
       message := "Secret reconstruction error:";
       detail := String.append "Need at least "
                   (String.append (number_to_string (threshold this))
                                  " shares to reconstruct secret") |}],
   Throw "Failed to reconstruct secret").
Proof.
  intros Hfew. unfold reconstructSecret.
  replace (Z.of_nat (length shares) <? threshold this) with true
    by (symmetry; apply Z.ltb_lt; exact Hfew).
  reflexivity.
Qed.


End EncryptionClaims.

Section EncryptionWitnesses.
Import JS EncryptionService.

Lemma published_package_neither_splits_nor_combines_witness :
  outcome (splitSecret Shamir.published Reference.service tt (code_units "PAPER_KEY_001"))
  = Throw "Failed to split secret"
  /\ outcome (reconstructSecret Shamir.published Reference.service
                [{| id := 1; share := "0150415045525f4b45595f303031";
                    share_threshold := 3; share_totalParts := 5 |};
                 {| id := 3; share := "0350415045525f4b45595f303031";
                    share_threshold := 3; share_totalParts := 5 |};
                 {| id := 5; share := "0550415045525f4b45595f303031";
                    share_threshold := 3; share_totalParts := 5 |}])
     = Normal (code_units "[object Promise]").
Proof.
  destruct (published_package_neither_splits_nor_combines Reference.service tt
              (code_units "PAPER_KEY_001")
              [{| id := 1; share := "0150415045525f4b45595f303031";
                  share_threshold := 3; share_totalParts := 5 |};
               {| id := 3; share := "0350415045525f4b45595f303031";
                  share_threshold := 3; share_totalParts := 5 |};
               {| id := 5; share := "0550415045525f4b45595f303031";
                  share_threshold := 3; share_totalParts := 5 |}])
    as [Hsplit Hcombine].
  split.
  - rewrite Hsplit. reflexivity.
  - rewrite Hcombine; [reflexivity|]. cbn. lia.
Defined.

Lemma decrypt_after_encrypt_witness :
  (exists payload,
     outcome (encrypt Reference.cipher Reference.service256
                (hex_decode "000102030405060708090a0b0c0d0e0f")
                (code_units "paper content")) = Normal payload
     /\ outcome (decrypt Reference.cipher Reference.service256 payload)
        = Normal (code_units "paper content"))
  /\ (exists payload,
        outcome (encrypt Reference.cipher Reference.service256
                   (hex_decode "000102030405060708090a0b0c0d0e0f")
                   [0x41; 0xD800; 0x42]) = Normal payload
        /\ outcome (decrypt Reference.cipher Reference.service256 payload)
           = Normal [0x41; 0xFFFD; 0x42]).
Proof.
  split.
  - apply (decrypt_after_encrypt Reference.cipher Reference.service256
             (hex_decode "000102030405060708090a0b0c0d0e0f")
             (code_units "paper content") cipher_correct).
    apply code_units_in_range.
  - apply (decrypt_after_encrypt Reference.cipher Reference.service256
             (hex_decode "000102030405060708090a0b0c0d0e0f")
             [0x41; 0xD800; 0x42] cipher_correct).
    repeat constructor; unfold code_unit; lia.
Defined.

(** C2, counterexample.  Under a key of 32 bytes, a text consisting of an
    unpaired surrogate is encrypted, and decrypts to U+FFFD. *)
Lemma unpaired_surrogate_plaintext_not_recovered :
  ~ (forall (crypto : Crypto.provider) this random_iv data,
       Crypto.gcm_correct crypto ->
       length (hex_decode (encryptionKey this)) = 32%nat ->
       Forall code_unit data ->
       exists payload,
         outcome (encrypt crypto this random_iv data) = Normal payload
         /\ outcome (decrypt crypto this payload) = Normal data).
Proof.
  intros H.
  destruct (H Reference.cipher Reference.service256
              (hex_decode "000102030405060708090a0b0c0d0e0f") [0xD800]
              cipher_correct eq_refl)
    as (payload & Henc & Hdec).
  { repeat constructor; unfold code_unit; lia. }
  vm_compute in Henc. injection Henc as <-.
  vm_compute in Hdec. discriminate.
Qed.

(** C3, on a concrete input: one text, one key, two vectors.  The payloads
    differ in the [iv] field only, and the first decrypts with the vector
    of the second in its place. *)
Example two_vectors_one_ciphertext :
  exists first second,
    outcome (encrypt Reference.cipher Reference.service
               (hex_decode "000102030405060708090a0b0c0d0e0f")
               (code_units "paper content")) = Normal first
    /\ outcome (encrypt Reference.cipher Reference.service
                  (hex_decode "ffffffffffffffffffffffffffffffff")
                  (code_units "paper content")) = Normal second
    /\ iv first <> iv second
    /\ encrypted first = encrypted second
    /\ authTag first = authTag second
    /\ outcome (decrypt Reference.cipher Reference.service
                  {| encrypted := encrypted first; iv := iv second;
                     authTag := authTag first |})
       = Normal (code_units "paper content").
Proof.
  eexists _, _. split; [vm_compute; reflexivity|]. split; [vm_compute; reflexivity|].
  cbn [iv encrypted authTag]. split; [discriminate|].
  repeat split; vm_compute; reflexivity.
Qed.



Lemma reconstruct_needs_quorum_witness :
  outcome (reconstructSecret Reference.copying Reference.service
             [{| id := 2; share := "0250415045525f4b45595f303031";
                 share_threshold := 3; share_totalParts := 5 |};
              {| id := 4; share := "0450415045525f4b45595f303031";
                 share_threshold := 3; share_totalParts := 5 |}])
  = Throw "Failed to reconstruct secret".
Proof.
  rewrite (reconstruct_needs_quorum Reference.copying Reference.service).
  - reflexivity.
  - cbn. lia.
Defined.


End EncryptionWitnesses.

(** ** The retry state machine of a transaction record *)

Section RetryStateMachine.
Import JS BlockchainTransaction.

(** One failed attempt on a pending record: it stays pending below the
    limit, or fails at the time of the attempt. *)
Lemma incrementRetry_step now this :
  status this = pending ->
  (status (incrementRetry now this) = pending
   /\ retryCount (incrementRetry now this) = retryCount this + 1
   /\ retryCount (incrementRetry now this) < maxRetries (incrementRetry now this)
   /\ failedAt (incrementRetry now this) = failedAt this)
  \/ (status (incrementRetry now this) = failed
      /\ retryCount (incrementRetry now this) = retryCount this + 1
      /\ maxRetries (incrementRetry now this) <= retryCount (incrementRetry now this)
      /\ failedAt (incrementRetry now this) = Some now).
Proof.
  intros Hp. unfold incrementRetry. cbn [retryCount maxRetries set_retryCount].
  destruct (Z.geb_spec (retryCount this + 1) (maxRetries this)) as [Hge|Hlt].
  - right. cbn. repeat split; try reflexivity; lia.
  - left. cbn. rewrite Hp. repeat split; try reflexivity; lia.
Qed.

Lemma incrementRetry_maxRetries now this :
  maxRetries (incrementRetry now this) = maxRetries this.
Proof.
  unfold incrementRetry. cbn [retryCount maxRetries set_retryCount].
  destruct (retryCount this + 1 >=? maxRetries this); reflexivity.
Qed.

(** [failed] is not left by a further attempt. *)
Lemma incrementRetry_failed now this :
  status this = failed -> status (incrementRetry now this) = failed.
Proof.
  intros Hf. unfold incrementRetry. cbn [retryCount maxRetries set_retryCount].
  destruct (retryCount this + 1 >=? maxRetries this); [reflexivity | exact Hf].
Qed.

Lemma retries_snoc times now this :
  retries (times ++ [now]) this = incrementRetry now (retries times this).
Proof.
  revert this. induction times as [|t times IH]; intros this; [reflexivity|].
  cbn [app retries]. apply IH.
Qed.

(** While the limit is not reached the record stays pending and counts
    the attempts. *)
Lemma retries_below_limit times : forall this,
  status this = pending ->
  retryCount this + Z.of_nat (length times) < maxRetries this ->
  status (retries times this) = pending
  /\ retryCount (retries times this) = retryCount this + Z.of_nat (length times)
  /\ maxRetries (retries times this) = maxRetries this.
Proof.
  induction times as [|now times IH]; intros this Hp Hlt.
  - cbn. split; [exact Hp|]. split; [lia | reflexivity].
  - cbn [retries length] in *.
    destruct (incrementRetry_step now this Hp) as [(Hs & Hc & _ & _)|(_ & Hc & Hm & _)].
    + destruct (IH (incrementRetry now this) Hs) as (Hs' & Hc' & Hm').
      * rewrite Hc, incrementRetry_maxRetries. lia.
      * rewrite Hs', Hc', Hm', Hc, incrementRetry_maxRetries.
        split; [reflexivity|]. split; [lia | reflexivity].
    + rewrite incrementRetry_maxRetries in Hm. lia.
Qed.

(** After a reset the count is kept: a record that had exhausted its
    retries fails again at the next failed attempt. *)
Lemma resetForRetry_keeps_count now this :
  maxRetries this <= retryCount this ->
  status (resetForRetry this) = pending
  /\ retryCount (resetForRetry this) = retryCount this
  /\ status (incrementRetry now (resetForRetry this)) = failed.
Proof.
  intros Hm. split; [reflexivity|]. split; [reflexivity|].
  unfold incrementRetry, resetForRetry.
  cbn [retryCount maxRetries set_retryCount set_status set_errorMessage set_failedAt].
  destruct (Z.geb_spec (retryCount this + 1) (maxRetries this)); [reflexivity | lia].
Qed.

Lemma elem_of_insert_by key (x y : t) l :
  x ∈ insert_by key y l <-> x = y \/ x ∈ l.
Proof.
  induction l as [|z l IH]; cbn [insert_by].
  - rewrite list_elem_of_singleton, elem_of_nil. tauto.
  - destruct (key y <? key z).
    + rewrite elem_of_cons. tauto.
    + rewrite !elem_of_cons, IH. tauto.
Qed.

Lemma elem_of_sort_by key (x : t) l : x ∈ sort_by key l <-> x ∈ l.
Proof.
  unfold sort_by. induction l as [|y l IH]; cbn [fold_right]; [tauto|].
  rewrite elem_of_insert_by, elem_of_cons, IH. tauto.
Qed.

(** Only pending records are found for a retry. *)
Lemma findPending_pending docs (d : t) : d ∈ findPending docs -> status d = pending.
Proof.
  unfold findPending. rewrite elem_of_sort_by, list_elem_of_filter. tauto.
Qed.

(** C8.  A failed attempt on a pending record either leaves it pending
    with the count raised by one and below [maxRetries], or makes it
    [failed]; a pending record reaches [failed] at the attempt that brings
    the count to [maxRetries], with the time of that attempt as [failedAt],
    and is pending before; once failed it is found by no [findPending] and
    stays failed under further attempts. *)
Theorem retries_exhaust this times :
  status this = pending ->
  retryCount this < maxRetries this ->
  Z.of_nat (length times) = maxRetries this - retryCount this ->
  (forall now d,
     status d = pending ->
     (status (incrementRetry now d) = pending
      /\ retryCount (incrementRetry now d) = retryCount d + 1
      /\ retryCount (incrementRetry now d) < maxRetries (incrementRetry now d))
     \/ (status (incrementRetry now d) = failed
         /\ failedAt (incrementRetry now d) = Some now))
  /\ (forall k,
        (k < length times)%nat ->
        status (retries (take k times) this) = pending
        /\ retryCount (retries (take k times) this) = retryCount this + Z.of_nat k
        /\ retryCount (retries (take k times) this) < maxRetries this)
  /\ status (retries times this) = failed
  /\ retryCount (retries times this) = maxRetries this
  /\ failedAt (retries times this) = last times
  /\ (forall docs, retries times this ∉ findPending docs)
  /\ (forall later, status (retries later (retries times this)) = failed).
Proof.
  intros Hp Hlt Hn.
  split.
  { intros now d Hd.
    destruct (incrementRetry_step now d Hd) as [(H1 & H2 & H3 & _)|(H1 & _ & _ & H4)];
      [left | right]; auto. }
  split.
  { intros k Hk.
    destruct (retries_below_limit (take k times) this Hp) as (Hs & Hc & _).
    - rewrite length_take. lia.
    - rewrite length_take in Hc. rewrite Hs, Hc. split; [reflexivity|]. lia. }
  assert (Hsplit : exists init now, times = init ++ [now]).
  { destruct times as [|t0 times'] eqn:E; [cbn in Hn; lia|].
    rewrite <- E. destruct (exists_last (l := times)) as (init & now & ->).
    - rewrite E. discriminate.
    - eauto. }
  destruct Hsplit as (init & now & ->).
  rewrite length_app in Hn. cbn [length] in Hn.
  rewrite retries_snoc, last_snoc.
  destruct (retries_below_limit init this Hp) as (Hs & Hc & Hm); [lia|].
  assert (Hfailed : status (incrementRetry now (retries init this)) = failed
                    /\ retryCount (incrementRetry now (retries init this)) = maxRetries this
                    /\ failedAt (incrementRetry now (retries init this)) = Some now).
  { destruct (incrementRetry_step now (retries init this) Hs)
      as [(_ & Hc' & Hlt' & _)|(Hs' & Hc' & _ & Hf')].
    - rewrite incrementRetry_maxRetries in Hlt'. lia.
    - split; [exact Hs'|]. split; [lia | exact Hf']. }
  destruct Hfailed as (Hs' & Hc' & Hf').
  split; [exact Hs'|]. split; [exact Hc'|]. split; [exact Hf'|].
  split.
  - intros docs Hin. apply findPending_pending in Hin. congruence.
  - intros later. generalize (incrementRetry now (retries init this)) Hs'.
    induction later as [|t later IH]; intros d Hd; [exact Hd|].
    cbn [retries]. apply IH, incrementRetry_failed, Hd.
Qed.

Lemma retries_exhaust_witness :
  status (retries [100; 200; 300] (Reference.submission 1 "Question" "Q1" "hashA" 50))
  = failed
  /\ failedAt (retries [100; 200; 300] (Reference.submission 1 "Question" "Q1" "hashA" 50))
     = Some 300.
Proof.
  destruct (retries_exhaust (Reference.submission 1 "Question" "Q1" "hashA" 50)
              [100; 200; 300]) as (_ & _ & Hs & _ & Hf & _).
  - reflexivity.
  - cbn. lia.
  - cbn. lia.
  - split; [exact Hs | exact Hf].
Defined.

End RetryStateMachine.

(** ** Verification against the anchored hash *)

Section Verification.
Import JS BlockchainTransaction BlockchainService.

(** C7 (as amended).  [verifyDataIntegrity] never throws; it answers
    [true] exactly when the database is reachable and the first confirmed
    record of the entity, in the natural order of the collection, carries
    the local hash; otherwise, also when the query fails, it answers
    [false]. *)
Theorem verify_compares_first_confirmed db entityId entityType localHash :
  exists answer,
    outcome (verifyDataIntegrity db entityId entityType localHash) = Normal answer
    /\ (answer = true <->
        exists docs tx,
          db = Connected docs
          /\ List.find (confirmed_for entityId entityType) docs = Some tx
          /\ dataHash tx = localHash).
Proof.
  unfold verifyDataIntegrity. destruct db as [docs|error]; cbn [findOne].
  - destruct (List.find (confirmed_for entityId entityType) docs) as [tx|] eqn:Hfind.
    + exists (String.eqb (dataHash tx) localHash). split; [reflexivity|].
      rewrite String.eqb_eq. split.
      * intros Heq. exists docs, tx. auto.
      * intros (docs' & tx' & [= <-] & Hfind' & Heq). congruence.
    + exists false. split; [reflexivity|]. split; [discriminate|].
      intros (docs' & tx' & [= <-] & Hfind' & _). congruence.
  - exists false. split; [reflexivity|]. split; [discriminate|].
    intros (docs' & tx' & Hdb & _). discriminate.
Qed.

(** C7, counterexample.  An entity anchored with one hash and later with
    another: the latest confirmed record carries the second hash, yet
    verification against the second hash answers [false], and against the
    first [true]. *)
Lemma reanchored_entity_verifies_against_first_anchor :
  let docs := [Reference.anchor 1 "Question" "Q1" "hashA" 1000;
               Reference.anchor 2 "Question" "Q1" "hashB" 2000] in
  option_map dataHash (latest_confirmed docs "Q1" "Question") = Some "hashB"%string
  /\ outcome (verifyDataIntegrity (Connected docs) "Q1" "Question" "hashB") = Normal false
  /\ outcome (verifyDataIntegrity (Connected docs) "Q1" "Question" "hashA") = Normal true.
Proof. cbv zeta. repeat split; vm_compute; reflexivity. Qed.

End Verification.

(** ** The exam view of a question *)

Section ExamView.
Import Question.
Variable plain : gmap string value -> gmap string value.

(** A deletion on the object just stored at a location. *)
Lemma delete_property_insert (h : heap) o key data :
  delete_property o key (<[o := data]> h) = <[o := delete key data]> h.
Proof. unfold delete_property. apply alter_insert_eq. Qed.

(** A deletion leaves the other objects alone. *)
Lemma delete_property_other (h : heap) o key l :
  l <> o -> delete_property o key h !! l = h !! l.
Proof. intros Hl. unfold delete_property. apply lookup_alter_ne. congruence. Qed.

Lemma exam_fields_lookup data (key : string) :
  exam_fields data !! key = if bool_decide (key ∈ withheld) then None else data !! key.
Proof.
  unfold exam_fields, withheld. rewrite !lookup_delete.
  repeat case_decide; subst;
    case_bool_decide as Hin; try reflexivity;
    rewrite ?elem_of_cons, elem_of_nil in Hin; intuition congruence.
Qed.

Lemma getForExam_heap (h : heap) this doc :
  h !! this = Some doc ->
  getForExam plain h this =
  Some (<[fresh (dom h) := exam_fields (plain doc)]> h, fresh (dom h)).
Proof.
  intros Hdoc. unfold getForExam, toObject. rewrite Hdoc.
  rewrite !delete_property_insert. reflexivity.
Qed.

(** C9.  [getForExam] returns a new object holding the question's data
    without the six withheld fields, every other field as in the data; the
    question and every other object of the heap are as before. *)
Theorem getForExam_withholds_answer_fields (h : heap) this doc :
  h !! this = Some doc ->
  exists h' o data,
    getForExam plain h this = Some (h', o)
    /\ h !! o = None
    /\ h' !! o = Some data
    /\ (forall key : string,
          data !! key = if bool_decide (key ∈ withheld) then None else plain doc !! key)
    /\ h' !! this = Some doc
    /\ (forall l, l <> o -> h' !! l = h !! l).
Proof.
  intros Hdoc.
  assert (Hfresh : h !! fresh (dom h) = None).
  { apply not_elem_of_dom, is_fresh. }
  eexists _, _, _. split; [exact (getForExam_heap h this doc Hdoc)|].
  split; [exact Hfresh|].
  split; [apply lookup_insert_eq|].
  split; [apply exam_fields_lookup|].
  split.
  - rewrite lookup_insert_ne; [exact Hdoc|].
    intros Heq. rewrite Heq in Hfresh. congruence.
  - intros l Hl. rewrite lookup_insert_ne by (apply not_eq_sym, Hl). reflexivity.
Qed.

End ExamView.

Lemma getForExam_withholds_answer_fields_witness :
  exists h' o data,
    Question.getForExam Reference.plain {[ 1%positive := Reference.question ]} 1%positive
      = Some (h', o)
    /\ h' !! o = Some data
    /\ data !! "correctAnswer"%string = None
    /\ data !! "questionText"%string = Some (Question.VString "2 + 2 = ?")
    /\ h' !! 1%positive = Some Reference.question.
Proof.
  destruct (getForExam_withholds_answer_fields Reference.plain
              {[ 1%positive := Reference.question ]} 1%positive Reference.question)
    as (h' & o & data & Hget & _ & Hdata & Hfields & Hthis & _).
  - apply lookup_singleton_eq.
  - exists h', o, data. split; [exact Hget|]. split; [exact Hdata|].
    split; [|split; [|exact Hthis]].
    + rewrite Hfields. reflexivity.
    + rewrite Hfields. reflexivity.
Defined.

(** ** Availability of shares *)

Section ShareAvailability.
Import JS ExamPaper.

Lemma available_count shares :
  Z.of_nat (length (List.filter (fun share => negb (isUsed share)) shares))
  = count_flag false shares.
Proof.
  induction shares as [|s shares IH]; [reflexivity|].
  cbn [List.filter count_flag]. destruct (isUsed s); cbn [negb Bool.eqb length].
  - rewrite IH. lia.
  - rewrite Nat2Z.inj_succ, IH. lia.
Qed.

Lemma count_flag_total shares :
  count_flag false shares + count_flag true shares = Z.of_nat (length shares).
Proof.
  induction shares as [|s shares IH]; [reflexivity|].
  cbn [count_flag length]. rewrite Nat2Z.inj_succ.
  destruct (isUsed s); cbn [Bool.eqb]; lia.
Qed.

(** Marking a share never makes more shares available: the share found
    leaves the available ones if it was among them. *)
Lemma use_first_count id shares shares' :
  use_first id shares = Some shares' ->
  length shares' = length shares
  /\ count_flag false shares' <= count_flag false shares
  /\ count_flag false shares - 1 <= count_flag false shares'.
Proof.
  revert shares'. induction shares as [|s shares IH]; intros shares' H; [discriminate|].
  cbn [use_first] in H. destruct (shareId s =? id).
  - injection H as <-. cbn [count_flag length set_isUsed isUsed Bool.eqb].
    destruct (isUsed s); cbn [Bool.eqb]; lia.
  - destruct (use_first id shares) as [rest|]; [|discriminate].
    injection H as <-. destruct (IH rest eq_refl) as (Hl & Hle & Hge).
    cbn [count_flag length]. lia.
Qed.

(** C10.  [hasEnoughShares] answers [true] exactly when the shares whose
    [isUsed] flag is false number at least the threshold; the shares
    already used are the others and do not count. *)
Theorem hasEnoughShares_counts_unused this :
  (hasEnoughShares this = true <->
   threshold this <= count_flag false (shamirShares this))
  /\ count_flag false (shamirShares this)
     = Z.of_nat (length (shamirShares this)) - count_flag true (shamirShares this).
Proof.
  split.
  - unfold hasEnoughShares, getAvailableShares.
    rewrite available_count, Z.geb_le. reflexivity.
  - pose proof (count_flag_total (shamirShares this)). lia.
Qed.

(** On the sample paper: two of three shares submitted leave one
    available, below the threshold of two. *)
Lemma submitted_shares_are_not_available :
  hasEnoughShares Reference.paper = true
  /\ exists paper',
       bind (lift (markShareAsUsed 1 Reference.paper))
            (fun p => lift (markShareAsUsed 3 p)) = ret paper'
       /\ count_flag true (shamirShares paper') = 2
       /\ hasEnoughShares paper' = false.
Proof. split; [reflexivity|]. eexists. repeat split. Qed.

End ShareAvailability.

(* ===================================================================== *)
(** * Part III.  Further properties of the code                          *)
(* ===================================================================== *)

(** ** Integrity helpers of the encryption service *)

Section HexText.
Import JS.

Lemma Z_of_byte_inj a b : Z_of_byte a = Z_of_byte b -> a = b.
Proof.
  intros H. rewrite <- (byte_of_Z_of_byte a), <- (byte_of_Z_of_byte b), H. reflexivity.
Qed.

Lemma map_Z_of_byte_inj (a b : Buffer) :
  map Z_of_byte a = map Z_of_byte b -> a = b.
Proof.
  revert b. induction a as [|x a IH]; intros [|y b] H; try discriminate; [reflexivity|].
  cbn [map] in H. injection H as Hx Hab.
  f_equal; [apply Z_of_byte_inj, Hx | apply IH, Hab].
Qed.

(** [timingSafeEqual] answers [true] on equal buffers only, and throws
    only on buffers of different lengths. *)
Lemma timingSafeEqual_true a b : Crypto.timingSafeEqual a b = Normal true <-> a = b.
Proof.
  unfold Crypto.timingSafeEqual. split.
  - case_bool_decide as Hl; [|discriminate].
    intros [= H]. apply bool_decide_eq_true_1 in H. apply map_Z_of_byte_inj, H.
  - intros ->. rewrite !bool_decide_eq_true_2 by reflexivity. reflexivity.
Qed.

Lemma timingSafeEqual_same a : Crypto.timingSafeEqual a a = Normal true.
Proof. apply timingSafeEqual_true. reflexivity. Qed.

(** Decoding stops at the first character that is no hexadecimal digit. *)
Lemma hex_decode_stops (bs : Buffer) c rest :
  hex_value c = None ->
  hex_decode (String.append (hex_encode bs) (String c rest)) = bs.
Proof.
  intros Hc. induction bs as [|b bs IH].
  - cbn [hex_encode]. change (String.append EmptyString (String c rest)) with (String c rest).
    cbn [hex_decode]. destruct rest; [reflexivity|]. rewrite Hc. reflexivity.
  - cbn [hex_encode].
    replace (String.append (String.append (hex_of_byte b) (hex_encode bs)) (String c rest))
      with (String.append (hex_of_byte b)
              (String.append (hex_encode bs) (String c rest)))
      by (destruct b; reflexivity).
    rewrite hex_decode_byte, IH. reflexivity.
Qed.

(** Text after the digits written for a buffer decides whether the
    number of characters is even. *)
Lemma even_length_after_hex (bs : Buffer) tail :
  Nat.even (String.length (String.append (hex_encode bs) tail))
  = Nat.even (String.length tail).
Proof.
  induction bs as [|b bs IH]; [reflexivity|].
  cbn [hex_encode]. unfold hex_of_byte.
  change (String.append (String.append (String ?a (String ?b EmptyString)) ?r) tail)
    with (String a (String b (String.append r tail))).
  cbn [String.length Nat.even]. exact IH.
Qed.

Lemma hex_digit_lower n : (n < 16)%N -> is_lower_hex (hex_digit n) = true.
Proof.
  intros Hn. unfold hex_digit, is_lower_hex.
  destruct (N.ltb_spec n 10) as [Hlt|Hge]; cbv zeta;
    rewrite N_ascii_embedding by lia.
  - apply orb_true_intro. left.
    apply andb_true_intro. split; apply N.leb_le; lia.
  - apply orb_true_intro. right.
    apply andb_true_intro. split; apply N.leb_le; lia.
Qed.

Lemma hex_encode_text (bs : Buffer) :
  String.length (hex_encode bs) = (2 * length bs)%nat
  /\ Forall (fun c => is_lower_hex c = true) (list_ascii_of_string (hex_encode bs)).
Proof.
  induction bs as [|b bs [IHl IHc]]; [split; [reflexivity | constructor]|].
  cbn [hex_encode]. unfold hex_of_byte.
  change (String.append (String ?a (String ?b EmptyString)) ?r) with (String a (String b r)).
  cbn [String.length list_ascii_of_string length]. split; [lia|].
  pose proof (Byte.to_N_bounded b) as Hb.
  repeat constructor; try exact IHc; apply hex_digit_lower.
  - apply N.Div0.div_lt_upper_bound. lia.
  - apply N.mod_lt. lia.
Qed.

End HexText.

Section IntegrityProperties.
Import JS EncryptionService.
Context (crypto : Crypto.provider) (digests : Crypto.digests).
Context {Random : Type} (shamir : Shamir.library Random).

(** The key [generateHMAC] and [verifyHMAC] use. *)
Lemma generateHMAC_returns this data key :
  generateHMAC digests this data key =
  ret (hex_encode
         (Crypto.hmac_sha256 digests
            (utf8_encode (code_units (default (encryptionKey this) key)))
            (utf8_encode data))).
Proof. destruct key; reflexivity. Qed.

Lemma verifyHMAC_compares this data hmac key :
  verifyHMAC digests this data hmac key =
  try_catch
    (lift (Crypto.timingSafeEqual (hex_decode hmac)
             (Crypto.hmac_sha256 digests
                (utf8_encode (code_units (default (encryptionKey this) key)))
                (utf8_encode data))))
    (fun error =>
       bind (logger_error "HMAC verification error:" error) (fun _ => ret false)).
Proof.
  unfold verifyHMAC. rewrite generateHMAC_returns. cbn [default].
  unfold bind at 1. cbn [ret]. rewrite hex_roundtrip.
  destruct key; cbn [default]; destruct (Crypto.timingSafeEqual _ _); reflexivity.
Qed.

(** X1.  [verifyHMAC] accepts the value [generateHMAC] returns for the same
    data and key, for every data and key, also with the key left out. *)
Theorem verifyHMAC_accepts_generateHMAC this data key :
  exists mac,
    outcome (generateHMAC digests this data key) = Normal mac
    /\ verifyHMAC digests this data mac key = ret true.
Proof.
  eexists. rewrite generateHMAC_returns. split; [reflexivity|].
  rewrite verifyHMAC_compares, hex_roundtrip, timingSafeEqual_same. reflexivity.
Qed.

(** X2.  [verifyHMAC] never throws; it answers [true] exactly when the
    bytes decoded from the given text are the bytes of the HMAC of the
    data, and [false] otherwise, also when their number differs. *)
Theorem verifyHMAC_true_iff this data hmac key :
  exists answer,
    outcome (verifyHMAC digests this data hmac key) = Normal answer
    /\ (answer = true <->
        hex_decode hmac =
        Crypto.hmac_sha256 digests
          (utf8_encode (code_units (default (encryptionKey this) key)))
          (utf8_encode data)).
Proof.
  rewrite verifyHMAC_compares.
  destruct (Crypto.timingSafeEqual (hex_decode hmac) _) as [[|]|error] eqn:Hcmp.
  - exists true. split; [reflexivity|]. apply timingSafeEqual_true in Hcmp. tauto.
  - exists false. split; [reflexivity|]. split; [discriminate|].
    intros Heq. apply timingSafeEqual_true in Heq. congruence.
  - exists false. split; [reflexivity|]. split; [discriminate|].
    intros Heq. apply timingSafeEqual_true in Heq. congruence.
Qed.

(** X3.  Text after the hexadecimal digits of an HMAC is not looked at: the
    value of [generateHMAC] followed by anything that starts with a
    character that is no hexadecimal digit is accepted. *)
Theorem verifyHMAC_ignores_trailing_text this data key mac c rest :
  hex_value c = None ->
  outcome (generateHMAC digests this data key) = Normal mac ->
  verifyHMAC digests this data (String.append mac (String c rest)) key = ret true.
Proof.
  intros Hc Hmac. rewrite generateHMAC_returns in Hmac.
  cbn [outcome ret snd] in Hmac. injection Hmac as <-.
  rewrite verifyHMAC_compares, hex_decode_stops by exact Hc.
  rewrite timingSafeEqual_same. reflexivity.
Qed.

(** X4.  [decrypt] does not look at what follows the hexadecimal digits of
    the tag, nor at the [iv] field; what follows the digits of the
    ciphertext is not looked at either when it has an even number of
    characters, and makes the decryption fail when it has an odd number:
    the payload of [encrypt], so extended, decrypts to the text in the
    first case and throws in the second. *)
Theorem decrypt_ignores_trailing_text this random_iv data payload c1 rest1 c2 rest2 other :
  Crypto.gcm_correct crypto ->
  well_formed data = true ->
  hex_value c1 = None -> hex_value c2 = None ->
  outcome (encrypt crypto this random_iv data) = Normal payload ->
  outcome (decrypt crypto this
             {| encrypted := String.append (encrypted payload) (String c1 rest1);
                iv := other;
                authTag := String.append (authTag payload) (String c2 rest2) |})
  = if Nat.even (String.length (String c1 rest1)) then Normal data
    else Throw "Failed to decrypt data".
Proof.
  intros Hgcm Hwf Hc1 Hc2 Henc. rewrite encrypt_returns in Henc.
  cbn [outcome ret snd] in Henc. injection Henc as <-. cbn [encrypted authTag].
  destruct (Nat.even (String.length (String c1 rest1))) eqn:Htail.
  - rewrite decrypt_even
      by (cbn [encrypted]; rewrite even_length_after_hex; exact Htail).
    unfold Crypto.opens. cbn [encrypted authTag].
    rewrite !hex_decode_stops by assumption. rewrite Hgcm.
    cbn [ret outcome snd]. rewrite utf8_roundtrip by exact Hwf. reflexivity.
  - rewrite decrypt_odd
      by (cbn [encrypted]; rewrite even_length_after_hex; exact Htail).
    reflexivity.
Qed.

(** X5.  [reconstructSecret] reads the [share] text of the records and
    nothing else: lists whose shares decode to the same bytes give the
    same result, whatever their [id], [threshold] and [totalParts]. *)
Theorem reconstructSecret_reads_shares_only this (records1 records2 : list ShareRecord) :
  map (fun r => hex_decode (share r)) records1
  = map (fun r => hex_decode (share r)) records2 ->
  reconstructSecret shamir this records1 = reconstructSecret shamir this records2.
Proof.
  intros Hshares. unfold reconstructSecret.
  assert (Hlen : length records1 = length records2).
  { rewrite <- (length_map (fun r => hex_decode (share r)) records1), Hshares.
    apply length_map. }
  rewrite Hlen, Hshares. reflexivity.
Qed.

(** X6.  The records [splitSecret] returns are numbered 1, 2, 3, ... in the
    order of the library's shares, carry the threshold and the number of
    parts of the service, and hold the shares without loss: decoding them
    gives the shares of the library. *)
Theorem splitSecret_numbers_shares this random secret records :
  outcome (splitSecret shamir this random secret) = Normal records ->
  map id records = map (fun i => Z.of_nat i + 1) (seq 0 (length records))
  /\ Forall (fun r => share_threshold r = threshold this
                      /\ share_totalParts r = totalParts this) records
  /\ Shamir.share shamir random (utf8_encode secret) (totalParts this) (threshold this)
     = Normal (map (fun r => hex_decode (share r)) records).
Proof.
  intros Hsplit.
  destruct (Shamir.share shamir random (utf8_encode secret)
              (totalParts this) (threshold this)) as [shares|error] eqn:Hshare.
  - rewrite (splitSecret_returns shamir this random secret shares Hshare) in Hsplit.
    cbn [outcome ret snd] in Hsplit. injection Hsplit as <-.
    rewrite length_imap. clear Hshare.
    assert (Hgen : forall k (l : list Buffer),
      map id (imap (fun index share0 =>
                     {| id := Z.of_nat (k + index) + 1; share := hex_encode share0;
                        share_threshold := threshold this;
                        share_totalParts := totalParts this |}) l)
      = map (fun i => Z.of_nat i + 1) (seq k (length l))
      /\ Forall (fun r => share_threshold r = threshold this
                          /\ share_totalParts r = totalParts this)
           (imap (fun index share0 =>
                     {| id := Z.of_nat (k + index) + 1; share := hex_encode share0;
                        share_threshold := threshold this;
                        share_totalParts := totalParts this |}) l)
      /\ map (fun r => hex_decode (share r))
           (imap (fun index share0 =>
                     {| id := Z.of_nat (k + index) + 1; share := hex_encode share0;
                        share_threshold := threshold this;
                        share_totalParts := totalParts this |}) l) = l).
    { intros k l. revert k. induction l as [|b l IH]; intros k.
      - split; [reflexivity|]. split; [constructor | reflexivity].
      - cbn [imap map length seq id share]. rewrite Nat.add_0_r.
        destruct (IH (S k)) as (Hid & Hall & Hdec).
        assert (Hext : imap ((fun index share0 =>
                     {| id := Z.of_nat (k + index) + 1; share := hex_encode share0;
                        share_threshold := threshold this;
                        share_totalParts := totalParts this |}) ∘ S) l
                 = imap (fun index share0 =>
                     {| id := Z.of_nat (S k + index) + 1; share := hex_encode share0;
                        share_threshold := threshold this;
                        share_totalParts := totalParts this |}) l).
        { apply imap_ext. intros i x _. cbn. do 2 f_equal. lia. }
        rewrite Hext, Hid, Hdec, hex_roundtrip.
        split; [reflexivity|]. split; [|reflexivity].
        constructor; [split; reflexivity | exact Hall]. }
    destruct (Hgen 0%nat shares) as (Hid & Hall & Hdec).
    cbn [Nat.add] in Hid, Hall, Hdec.
    rewrite Hid, Hdec. auto.
  - rewrite (splitSecret_throws shamir this random secret error Hshare) in Hsplit.
    discriminate.
Qed.

(** X7.  What [prepareForBlockchain] returns for well-formed JSON text is
    consistent: the payload decrypts to the text, the hash is the hash of
    the payload's JSON text, and the HMAC is accepted by [verifyHMAC] for
    that text. *)
Theorem prepareForBlockchain_consistent this random_iv now text :
  Crypto.gcm_correct crypto ->
  well_formed text = true ->
  exists prepared,
    outcome (prepareForBlockchain crypto digests this random_iv now (Normal (Some text)))
      = Normal prepared
    /\ timestamp prepared = now
    /\ outcome (decrypt crypto this (prepared_encrypted prepared)) = Normal text
    /\ generateHash digests (stringify_encrypted (prepared_encrypted prepared))
       = ret (hash prepared)
    /\ verifyHMAC digests this (stringify_encrypted (prepared_encrypted prepared))
         (hmac prepared) None = ret true.
Proof.
  intros Hgcm Hwf.
  unfold prepareForBlockchain. cbn [lift bind encrypt_json].
  rewrite encrypt_returns.
  set (payload := {| encrypted := _; iv := _; authTag := _ |}).
  unfold generateHash. cbn [bind ret try_catch app].
  rewrite generateHMAC_returns.
  cbn [lift bind ret try_catch app outcome snd fst].
  eexists. split; [reflexivity|]. cbn [timestamp prepared_encrypted hash hmac].
  split; [reflexivity|]. split.
  - unfold decrypt, payload. cbn [encrypted authTag iv].
    rewrite update_hex_encode. cbn [lift bind].
    rewrite hex_roundtrip, Hgcm. cbn [try_catch ret outcome snd app].
    rewrite utf8_roundtrip by exact Hwf. reflexivity.
  - split; [reflexivity|].
    rewrite verifyHMAC_compares, hex_roundtrip, timingSafeEqual_same. reflexivity.
Qed.

(** X8.  With digests of 32 bytes, [generateHash] and [generateHMAC] return
    64 characters, each a digit or a letter from [a] to [f]. *)
Theorem digests_are_64_hex_characters this data key :
  (forall bytes, length (Crypto.sha256 digests bytes) = 32%nat) ->
  (forall k bytes, length (Crypto.hmac_sha256 digests k bytes) = 32%nat) ->
  exists hash mac,
    generateHash digests data = ret hash
    /\ generateHMAC digests this data key = ret mac
    /\ String.length hash = 64%nat /\ String.length mac = 64%nat
    /\ Forall (fun c => is_lower_hex c = true) (list_ascii_of_string hash)
    /\ Forall (fun c => is_lower_hex c = true) (list_ascii_of_string mac).
Proof.
  intros Hsha Hmac. eexists _, _. split; [reflexivity|].
  split; [apply generateHMAC_returns|].
  pose proof (hex_encode_text (Crypto.sha256 digests (utf8_encode data))) as [Hl1 Hc1].
  pose proof (hex_encode_text
                (Crypto.hmac_sha256 digests
                   (utf8_encode (code_units (default (encryptionKey this) key)))
                   (utf8_encode data))) as [Hl2 Hc2].
  rewrite Hsha in Hl1. rewrite Hmac in Hl2. auto.
Qed.

End IntegrityProperties.

Section IntegrityWitnesses.
Import JS EncryptionService.

Lemma verifyHMAC_ignores_trailing_text_witness :
  exists mac,
    outcome (generateHMAC Reference.digests Reference.service (code_units "{}") None)
      = Normal mac
    /\ verifyHMAC Reference.digests Reference.service (code_units "{}")
         (String.append mac "-forged") None = ret true.
Proof.
  eexists. split; [reflexivity|].
  apply (verifyHMAC_ignores_trailing_text Reference.digests Reference.service
           (code_units "{}") None); reflexivity.
Defined.

Lemma decrypt_ignores_trailing_text_witness :
  exists payload,
    outcome (encrypt Reference.cipher Reference.service
               (hex_decode "000102030405060708090a0b0c0d0e0f")
               (code_units "paper content")) = Normal payload
    /\ outcome (decrypt Reference.cipher Reference.service
                  {| encrypted := String.append (encrypted payload) "xy";
                     iv := "none";
                     authTag := String.append (authTag payload) " (checked)" |})
       = Normal (code_units "paper content")
    /\ outcome (decrypt Reference.cipher Reference.service
                  {| encrypted := String.append (encrypted payload) "xyz";
                     iv := "none";
                     authTag := String.append (authTag payload) " (checked)" |})
       = Throw "Failed to decrypt data".
Proof.
  eexists. split; [reflexivity|]. split.
  - apply (decrypt_ignores_trailing_text Reference.cipher Reference.service
             (hex_decode "000102030405060708090a0b0c0d0e0f") (code_units "paper content")
             _ "x" "y" " " "(checked)" "none" cipher_correct);
      reflexivity.
  - apply (decrypt_ignores_trailing_text Reference.cipher Reference.service
             (hex_decode "000102030405060708090a0b0c0d0e0f") (code_units "paper content")
             _ "x" "yz" " " "(checked)" "none" cipher_correct);
      reflexivity.
Defined.

Lemma reconstructSecret_reads_shares_only_witness :
  reconstructSecret Reference.copying Reference.service
    [{| id := 1; share := "0150"; share_threshold := 3; share_totalParts := 5 |};
     {| id := 2; share := "0250"; share_threshold := 3; share_totalParts := 5 |};
     {| id := 3; share := "0350"; share_threshold := 3; share_totalParts := 5 |}]
  = reconstructSecret Reference.copying Reference.service
      [{| id := 7; share := "0150"; share_threshold := 2; share_totalParts := 9 |};
       {| id := 7; share := "0250z"; share_threshold := 4; share_totalParts := 4 |};
       {| id := 0; share := "0350"; share_threshold := 3; share_totalParts := 5 |}].
Proof.
  apply (reconstructSecret_reads_shares_only Reference.copying Reference.service).
  reflexivity.
Defined.

Lemma splitSecret_numbers_shares_witness :
  exists records,
    outcome (splitSecret Reference.copying Reference.service tt (code_units "PAPER_KEY_001"))
      = Normal records
    /\ map id records = [1; 2; 3; 4; 5].
Proof.
  eexists. split; [vm_compute; reflexivity|].
  refine (proj1 (splitSecret_numbers_shares Reference.copying Reference.service tt
                   (code_units "PAPER_KEY_001") _ _)).
  vm_compute. reflexivity.
Defined.

Lemma prepareForBlockchain_consistent_witness :
  exists prepared,
    outcome (prepareForBlockchain Reference.cipher Reference.digests Reference.service
               (hex_decode "0001") "2024-01-01T00:00:00.000Z"
               (Normal (Some (code_units "{}")))) = Normal prepared
    /\ verifyHMAC Reference.digests Reference.service
         (stringify_encrypted (prepared_encrypted prepared)) (hmac prepared) None
       = ret true.
Proof.
  destruct (prepareForBlockchain_consistent Reference.cipher Reference.digests
              Reference.service (hex_decode "0001") "2024-01-01T00:00:00.000Z"
              (code_units "{}") cipher_correct eq_refl)
    as (prepared & Hp & _ & _ & _ & Hv).
  exists prepared. split; [exact Hp | exact Hv].
Defined.

Lemma digests_are_64_hex_characters_witness :
  exists hash,
    generateHash Reference.digests (code_units "{}") = ret hash
    /\ String.length hash = 64%nat.
Proof.
  destruct (digests_are_64_hex_characters Reference.digests Reference.service
              (code_units "{}") None)
    as (hash & mac & Hh & _ & Hl & _).
  - intros bytes. reflexivity.
  - intros k bytes. reflexivity.
  - exists hash. split; [exact Hh | exact Hl].
Defined.

End IntegrityWitnesses.

(** ** More on the transaction records *)

Section TransactionProperties.
Import JS BlockchainTransaction.

(** X9.  [resetForRetry] makes a record pending again and clears the error
    and the failure time, but keeps the retry count: a record that had
    used up its retries fails again at the first failed attempt after the
    reset. *)
Theorem reset_keeps_retry_count now this :
  maxRetries this <= retryCount this ->
  status (resetForRetry this) = pending
  /\ errorMessage (resetForRetry this) = None
  /\ failedAt (resetForRetry this) = None
  /\ retryCount (resetForRetry this) = retryCount this
  /\ status (incrementRetry now (resetForRetry this)) = failed
  /\ failedAt (incrementRetry now (resetForRetry this)) = Some now.
Proof.
  intros Hm. repeat (split; [reflexivity|]).
  unfold incrementRetry, resetForRetry.
  cbn [retryCount maxRetries set_retryCount set_status set_errorMessage set_failedAt].
  destruct (Z.geb_spec (retryCount this + 1) (maxRetries this)); [|lia].
  split; reflexivity.
Qed.

Lemma reset_keeps_retry_count_witness :
  status (incrementRetry 500
            (resetForRetry
               (retries [100; 200; 300]
                  (Reference.submission 1 "Question" "Q1" "hashA" 50)))) = failed.
Proof.
  apply (reset_keeps_retry_count 500
           (retries [100; 200; 300] (Reference.submission 1 "Question" "Q1" "hashA" 50))).
  apply Z.leb_le. reflexivity.
Defined.

(** X10.  [incrementRetry] does not look at the status: a record that was
    confirmed becomes [failed] when a further attempt brings its count to
    the limit, and keeps the time, the block and the status of its
    confirmation. *)
Theorem incrementRetry_fails_confirmed_record now later number hash slot this :
  maxRetries this <= retryCount this + 1 ->
  let confirmed_record := markConfirmed now number hash slot this in
  status confirmed_record = confirmed
  /\ status (incrementRetry later confirmed_record) = failed
  /\ failedAt (incrementRetry later confirmed_record) = Some later
  /\ confirmedAt (incrementRetry later confirmed_record) = Some now
  /\ confirmationStatus (incrementRetry later confirmed_record) = "confirmed"%string
  /\ blockNumber (incrementRetry later confirmed_record) = Some number
  /\ confirmationTime (incrementRetry later confirmed_record)
     = Some (now - submittedAt this).
Proof.
  intros Hm. cbv zeta. split; [reflexivity|].
  unfold incrementRetry, markConfirmed.
  cbn [retryCount maxRetries set_retryCount set_status set_block set_confirmedAt
       set_confirmationStatus].
  destruct (Z.geb_spec (retryCount this + 1) (maxRetries this)); [|lia].
  repeat split.
Qed.

Lemma incrementRetry_fails_confirmed_record_witness :
  status (incrementRetry 900
            (markConfirmed 400 7 "blockhash" None
               (retries [100; 200] (Reference.submission 1 "Question" "Q1" "hashA" 50))))
  = failed.
Proof.
  apply (incrementRetry_fails_confirmed_record 400 900 7 "blockhash" None
           (retries [100; 200] (Reference.submission 1 "Question" "Q1" "hashA" 50))).
  apply Z.leb_le. reflexivity.
Defined.

(** Insertion sort keeps the elements and orders them by the key. *)
Lemma insert_by_Permutation key (x : t) l : insert_by key x l ≡ₚ x :: l.
Proof.
  induction l as [|y l IH]; cbn [insert_by]; [reflexivity|].
  destruct (key x <? key y); [reflexivity|].
  rewrite IH. apply Permutation_swap.
Qed.

Lemma sort_by_Permutation key (l : list t) : sort_by key l ≡ₚ l.
Proof.
  unfold sort_by. induction l as [|x l IH]; cbn [fold_right]; [reflexivity|].
  rewrite insert_by_Permutation, IH. reflexivity.
Qed.

Lemma insert_by_sorted key (x : t) l :
  StronglySorted (fun a b => key a <= key b) l ->
  StronglySorted (fun a b => key a <= key b) (insert_by key x l).
Proof.
  induction 1 as [|y l Hs IH Hy]; cbn [insert_by].
  - repeat constructor.
  - destruct (Z.ltb_spec (key x) (key y)) as [Hlt|Hge].
    + constructor; [constructor; assumption|].
      constructor; [lia|]. eapply Forall_impl; [exact Hy|].
      cbn. intros z Hz. lia.
    + constructor; [exact IH|].
      rewrite (insert_by_Permutation key x l). constructor; [lia | exact Hy].
Qed.

Lemma sort_by_sorted key (l : list t) :
  StronglySorted (fun a b => key a <= key b) (sort_by key l).
Proof.
  unfold sort_by. induction l as [|x l IH]; cbn [fold_right]; [constructor|].
  apply insert_by_sorted, IH.
Qed.

Lemma StronglySorted_weaken {X} (R1 R2 : X -> X -> Prop) l :
  (forall a b, R1 a b -> R2 a b) -> StronglySorted R1 l -> StronglySorted R2 l.
Proof.
  intros Himp. induction 1 as [|x l Hs IH Hx]; constructor; [exact IH|].
  eapply Forall_impl; [exact Hx|]. intros y. apply Himp.
Qed.

(** X11.  [findPending] returns the pending documents, each as often as it
    is stored and no other document, the one submitted first at the
    head. *)
Theorem findPending_oldest_first (docs : Collection) :
  findPending docs ≡ₚ filter (fun d => status d = pending) docs
  /\ (forall d, d ∈ findPending docs <-> d ∈ docs /\ status d = pending)
  /\ StronglySorted (fun a b => submittedAt a <= submittedAt b) (findPending docs).
Proof.
  unfold findPending. split; [apply sort_by_Permutation|]. split.
  - intros d. rewrite sort_by_Permutation, list_elem_of_filter. tauto.
  - apply sort_by_sorted.
Qed.

(** X12.  [findByEntity] returns the documents of the entity and no other,
    whatever their status, the one submitted last at the head: no
    document of the entity was submitted after the first one returned. *)
Theorem findByEntity_latest_first (docs : Collection) type id :
  (forall d, d ∈ findByEntity docs type id
             <-> d ∈ docs /\ entityType d = type /\ entityId d = id)
  /\ StronglySorted (fun a b => submittedAt b <= submittedAt a) (findByEntity docs type id)
  /\ (forall first rest d,
        findByEntity docs type id = first :: rest ->
        d ∈ docs -> entityType d = type -> entityId d = id ->
        submittedAt d <= submittedAt first).
Proof.
  assert (Hin : forall d, d ∈ findByEntity docs type id
                          <-> d ∈ docs /\ entityType d = type /\ entityId d = id).
  { intros d. unfold findByEntity. rewrite sort_by_Permutation, list_elem_of_filter. tauto. }
  assert (Hsorted : StronglySorted (fun a b => submittedAt b <= submittedAt a)
                      (findByEntity docs type id)).
  { unfold findByEntity.
    eapply StronglySorted_weaken; [|apply (sort_by_sorted (fun d => - submittedAt d))].
    cbn. intros a b Hab. lia. }
  split; [exact Hin|]. split; [exact Hsorted|].
  intros first rest d Hfind Hd Ht Hi.
  assert (Hd' : d ∈ findByEntity docs type id) by (apply Hin; auto).
  rewrite Hfind in Hd', Hsorted. apply StronglySorted_inv in Hsorted as [_ Hall].
  apply elem_of_cons in Hd' as [->|Hd']; [lia|].
  rewrite Forall_forall in Hall. apply Hall, Hd'.
Qed.

Lemma findByEntity_latest_first_witness :
  submittedAt (Reference.anchor 1 "Question" "Q1" "hashA" 1000)
  <= submittedAt (Reference.anchor 2 "Question" "Q1" "hashB" 2000).
Proof.
  refine (proj2 (proj2 (findByEntity_latest_first
            [Reference.anchor 1 "Question" "Q1" "hashA" 1000;
             Reference.submission 3 "Answer" "A9" "hashC" 1500;
             Reference.anchor 2 "Question" "Q1" "hashB" 2000] "Question" "Q1"))
            _ _ _ _ _ _ _).
  - vm_compute. reflexivity.
  - apply list_elem_of_here.
  - reflexivity.
  - reflexivity.
Defined.

(** X13.  [findByDateRange] returns the documents submitted from
    [startDate] to [endDate], both included, newest first, and nothing
    when [endDate] is before [startDate]. *)
Theorem findByDateRange_inclusive (docs : Collection) startDate endDate :
  (forall d, d ∈ findByDateRange docs startDate endDate
             <-> d ∈ docs /\ startDate <= submittedAt d <= endDate)
  /\ StronglySorted (fun a b => submittedAt b <= submittedAt a)
       (findByDateRange docs startDate endDate)
  /\ (endDate < startDate -> findByDateRange docs startDate endDate = []).
Proof.
  assert (Hin : forall d, d ∈ findByDateRange docs startDate endDate
                          <-> d ∈ docs /\ startDate <= submittedAt d <= endDate).
  { intros d. unfold findByDateRange. rewrite sort_by_Permutation, list_elem_of_filter.
    tauto. }
  split; [exact Hin|]. split.
  - unfold findByDateRange.
    eapply StronglySorted_weaken; [|apply (sort_by_sorted (fun d => - submittedAt d))].
    cbn. intros a b Hab. lia.
  - intros Hlt. destruct (findByDateRange docs startDate endDate) as [|d l] eqn:E;
      [reflexivity|].
    assert (Hd : d ∈ d :: l) by apply list_elem_of_here.
    apply Hin in Hd. lia.
Qed.

Lemma findByDateRange_inclusive_witness :
  findByDateRange [Reference.anchor 1 "Question" "Q1" "hashA" 1000] 2000 1000 = [].
Proof.
  apply (proj2 (proj2 (findByDateRange_inclusive
                         [Reference.anchor 1 "Question" "Q1" "hashA" 1000] 2000 1000))).
  lia.
Defined.

End TransactionProperties.

(** ** More on verification *)

Section VerificationProperties.
Import JS BlockchainTransaction BlockchainService.

Lemma find_first_match {X} (p : X -> bool) before x after :
  List.find p before = None -> p x = true ->
  List.find p (before ++ x :: after) = Some x.
Proof.
  intros Hnone Hx. induction before as [|y before IH]; cbn [app List.find] in *.
  - rewrite Hx. reflexivity.
  - destruct (p y); [discriminate|]. apply IH, Hnone.
Qed.

(** X14.  The first confirmed record stored for an entity decides every
    later verification: with no confirmed record of the entity before it,
    [verifyDataIntegrity] answers whether the local hash is the hash of
    that record, whatever records are stored after it. *)
Theorem verify_first_anchor_decides docs record later entityId entityType localHash :
  List.find (confirmed_for entityId entityType) docs = None ->
  confirmed_for entityId entityType record = true ->
  outcome (verifyDataIntegrity (Connected (docs ++ record :: later))
             entityId entityType localHash)
  = Normal (String.eqb (dataHash record) localHash).
Proof.
  intros Hnone Hrecord. unfold verifyDataIntegrity. cbn [findOne].
  rewrite (find_first_match _ docs record later Hnone Hrecord). reflexivity.
Qed.

Lemma verify_first_anchor_decides_witness :
  outcome (verifyDataIntegrity
             (Connected ([Reference.submission 3 "Question" "Q1" "hash0" 500]
                         ++ Reference.anchor 1 "Question" "Q1" "hashA" 1000
                         :: [Reference.anchor 2 "Question" "Q1" "hashB" 2000]))
             "Q1" "Question" "hashA")
  = Normal true.
Proof.
  apply (verify_first_anchor_decides
           [Reference.submission 3 "Question" "Q1" "hash0" 500]
           (Reference.anchor 1 "Question" "Q1" "hashA" 1000)
           [Reference.anchor 2 "Question" "Q1" "hashB" 2000] "Q1" "Question" "hashA");
    reflexivity.
Defined.

End VerificationProperties.

(** ** More on questions *)

Section QuestionProperties.
Import Question.
Variable digest : list (string * option value) -> string.





End QuestionProperties.


(** ** Validation of uploaded questions *)

Section QuestionValidation.
Import JS QuestionService.

Lemma trim_start_nil s :
  trim_start s = [] <-> Forall (fun u => is_js_white_space u = true) s.
Proof.
  induction s as [|u s IH]; cbn [trim_start].
  - split; [constructor | reflexivity].
  - destruct (is_js_white_space u) eqn:Hu.
    + rewrite IH. split; [intros H; constructor; assumption|].
      intros H. apply Forall_cons in H as [_ H]. exact H.
    + split; [discriminate|]. intros H. apply Forall_cons in H as [H _]. congruence.
Qed.

Lemma trim_start_suffix s : exists prefix, s = prefix ++ trim_start s
  /\ Forall (fun u => is_js_white_space u = true) prefix.
Proof.
  induction s as [|u s (prefix & Hs & Hp)]; cbn [trim_start].
  - exists []. split; [reflexivity | constructor].
  - destruct (is_js_white_space u) eqn:Hu.
    + exists (u :: prefix). split; [cbn; f_equal; exact Hs | constructor; assumption].
    + exists []. split; [reflexivity | constructor].
Qed.

(** [s.trim() === ''] exactly when [s] is made of white space. *)
Lemma trim_nil s : trim s = [] <-> Forall (fun u => is_js_white_space u = true) s.
Proof.
  unfold trim. split.
  - intros H. apply (f_equal (@rev Z)) in H. rewrite rev_involutive in H. cbn in H.
    apply trim_start_nil in H. apply Forall_rev in H. rewrite rev_involutive in H.
    destruct (trim_start_suffix s) as (prefix & Hs & Hp).
    rewrite Hs. apply Forall_app. split; assumption.
  - intros H. apply trim_start_nil in H. rewrite H. reflexivity.
Qed.

Lemma not_blank_iff v :
  not_blank v <-> truthy v = true /\ trim (default [] v) <> [].
Proof.
  unfold not_blank. split.
  - intros (s & u & -> & Hu & Hws). cbn [default]. split.
    + destruct s; [inversion Hu | reflexivity].
    + rewrite trim_nil, Forall_forall. intros Hall. specialize (Hall u Hu). congruence.
  - intros [Ht Htrim]. destruct v as [s|]; [|discriminate]. cbn [default] in Htrim.
    rewrite trim_nil in Htrim. apply not_Forall_Exists in Htrim; [|intros u; apply _].
    apply Exists_exists in Htrim as (u & Hu & Hws).
    exists s, u. split; [reflexivity|]. split; [exact Hu|].
    apply not_true_is_false, Hws.
Qed.

Lemma for_each_ok {X} (check : X -> completion unit) l :
  for_each check l = Normal tt <-> Forall (fun x => check x = Normal tt) l.
Proof.
  induction l as [|x l IH]; cbn [for_each].
  - split; [constructor | reflexivity].
  - rewrite Forall_cons, <- IH. destruct (check x) as [[]|e]; [tauto|].
    split; [discriminate | intros [H _]; discriminate].
Qed.

Lemma then_ok (c k : completion unit) :
  match c with Normal _ => k | Throw e => Throw e end = Normal tt
  <-> c = Normal tt /\ k = Normal tt.
Proof.
  destruct c as [[]|e]; [tauto|]. split; [discriminate | intros [H _]; discriminate].
Qed.

Lemma unless_ok (c : bool) name (k : completion unit) :
  (if c then Throw name else k) = Normal tt <-> c = false /\ k = Normal tt.
Proof. destruct c; [split; [discriminate | intros [H _]; discriminate] | tauto]. Qed.

(** X16.  [validateQuestionData] returns without an error exactly for the
    data that have a subject, a topic and a question text of at most 2000
    code units, four options each with a character that is not white
    space and at most 500 code units, and [A], [B], [C] or [D] as the
    correct answer. *)
Theorem validateQuestionData_accepts_iff d :
  validateQuestionData d = Normal tt <-> acceptable d.
Proof.
  unfold validateQuestionData, acceptable, requiredOptions.
  rewrite then_ok, for_each_ok.
  rewrite !Forall_cons, Forall_nil. cbn [fst snd].
  rewrite !unless_ok, !negb_false_iff.
  destruct (options d) as [o|] eqn:Hopt.
  2:{ split.
      - intros [_ H]. discriminate.
      - intros (_ & _ & _ & _ & (o & Ho & _) & _). discriminate. }
  rewrite then_ok, for_each_ok, !unless_ok, for_each_ok.
  rewrite !Forall_cons, !Forall_nil. cbn [fst snd map].
  rewrite !unless_ok, !orb_false_iff, !negb_false_iff, !bool_decide_eq_false,
    !bool_decide_eq_true, !Z.gtb_ltb, !Z.ltb_ge.
  rewrite !elem_of_cons, !elem_of_nil.
  split.
  - intros [([Hs _] & [Ht _] & [Hq _] & _ & [Ha _] & _)
             (([HA _] & [HB _] & [HC _] & [HD _] & _)
              & Hans & Hlen & [HlA _] & [HlB _] & [HlC _] & [HlD _] & _)].
    apply not_blank_iff in HA, HB, HC, HD.
    repeat (split; [assumption|]). split.
    + exists o. split; [reflexivity|]. repeat constructor; assumption.
    + destruct Hans as [H|[H|[H|[H|[]]]]];
        [exists "A"%string | exists "B"%string | exists "C"%string | exists "D"%string];
        (split; [rewrite !elem_of_cons; tauto | exact H]).
  - intros (Hs & Ht & Hq & Hlen & (o' & [= <-] & Hall) & (letter & Hin & Hl)).
    rewrite !elem_of_cons, elem_of_nil in Hin.
    apply Forall_cons in Hall as [[HA HlA] Hall].
    apply Forall_cons in Hall as [[HB HlB] Hall].
    apply Forall_cons in Hall as [[HC HlC] Hall].
    apply Forall_cons in Hall as [[HD HlD] _].
    apply not_blank_iff in HA, HB, HC, HD.
    assert (Ha : truthy (correctAnswer d) = true).
    { rewrite Hl. destruct Hin as [->|[->|[->|[->|[]]]]]; reflexivity. }
    assert (Hans : correctAnswer d = Some (code_units "A")
                   \/ correctAnswer d = Some (code_units "B")
                   \/ correctAnswer d = Some (code_units "C")
                   \/ correctAnswer d = Some (code_units "D") \/ False).
    { rewrite Hl. destruct Hin as [->|[->|[->|[->|[]]]]]; tauto. }
    assert (Hsome : is_Some (Some o)) by eauto.
    tauto.
Qed.

End QuestionValidation.

(** ** More on the shares of a paper *)

Section ShareBookkeeping.
Import JS ExamPaper.

Lemma use_first_none id shares :
  use_first id shares = None <-> Forall (fun s => shareId s <> id) shares.
Proof.
  induction shares as [|s shares IH]; cbn [use_first].
  - split; [constructor | reflexivity].
  - rewrite Forall_cons. destruct (Z.eqb_spec (shareId s) id) as [He|Hne].
    + split; [discriminate | intros [H _]; contradiction].
    + destruct (use_first id shares); cbn [option_map].
      * split; [discriminate|]. intros [_ H]. apply IH in H. discriminate.
      * split; [intros _; split; [exact Hne | apply IH; reflexivity] | reflexivity].
Qed.

Lemma use_first_found id before s after :
  Forall (fun x => shareId x <> id) before -> shareId s = id ->
  use_first id (before ++ s :: after) = Some (before ++ set_isUsed true s :: after).
Proof.
  intros Hb Hs. induction before as [|x before IH]; cbn [app use_first].
  - rewrite (proj2 (Z.eqb_eq _ _) Hs). reflexivity.
  - apply Forall_cons in Hb as [Hx Hb].
    rewrite (proj2 (Z.eqb_neq _ _) Hx), (IH Hb). reflexivity.
Qed.

(** Every list in which the id occurs splits at its first occurrence. *)
Lemma first_occurrence id shares :
  ~ Forall (fun s => shareId s <> id) shares ->
  exists before s after,
    shares = before ++ s :: after
    /\ Forall (fun x => shareId x <> id) before /\ shareId s = id.
Proof.
  induction shares as [|x shares IH]; intros H; [destruct H; constructor|].
  destruct (Z.eq_dec (shareId x) id) as [He|Hne].
  - exists [], x, shares. split; [reflexivity|]. split; [constructor | exact He].
  - destruct IH as (before & s & after & -> & Hb & Hs).
    + intros Hall. apply H. constructor; assumption.
    + exists (x :: before), s, after. split; [reflexivity|].
      split; [constructor; assumption | exact Hs].
Qed.

(** X17.  [markShareAsUsed] throws 'Share not found' exactly when no share
    of the paper has the given id; otherwise it returns the paper. *)
Theorem markShareAsUsed_throws_iff id this :
  (markShareAsUsed id this = Throw "Share not found"
   <-> Forall (fun s => shareId s <> id) (shamirShares this))
  /\ ((exists paper, markShareAsUsed id this = Normal paper)
      <-> Exists (fun s => shareId s = id) (shamirShares this)).
Proof.
  unfold markShareAsUsed. pose proof (use_first_none id (shamirShares this)) as Hn.
  destruct (use_first id (shamirShares this)) as [shares|] eqn:E.
  - assert (Hex : Exists (fun s => shareId s = id) (shamirShares this)).
    { destruct (first_occurrence id (shamirShares this))
        as (before & s & after & Hsplit & _ & Hs).
      - intros Hall. apply Hn in Hall. discriminate.
      - apply Exists_exists. exists s. split; [|exact Hs].
        rewrite Hsplit. apply elem_of_app. right. apply list_elem_of_here. }
    split.
    + split; [discriminate|]. intros H. apply Hn in H. discriminate.
    + split; [intros _; exact Hex | eauto].
  - split.
    + split; [intros _; apply Hn; reflexivity | reflexivity].
    + split; [intros [paper H]; discriminate|].
      intros Hex. apply Exists_exists in Hex as (s & Hin & Hs).
      assert (Hall := proj1 Hn eq_refl). rewrite Forall_forall in Hall.
      exfalso. exact (Hall s Hin Hs).
Qed.


(** X19.  A share can be marked again: marking the id of a paper returned
    by [markShareAsUsed] for that id succeeds and returns the same paper;
    a share already used is not refused. *)
Theorem markShareAsUsed_again id this paper :
  markShareAsUsed id this = Normal paper ->
  markShareAsUsed id paper = Normal paper.
Proof.
  unfold markShareAsUsed. intros H.
  destruct (use_first id (shamirShares this)) as [shares|] eqn:E; [|discriminate].
  injection H as <-. cbn [shamirShares set_shamirShares].
  destruct (first_occurrence id (shamirShares this)) as (before & s & after & Hsplit & Hb & Hs).
  { intros Hall. apply use_first_none in Hall. congruence. }
  rewrite Hsplit, (use_first_found id before s after Hb Hs) in E. injection E as <-.
  rewrite (use_first_found id before (set_isUsed true s) after Hb Hs). reflexivity.
Qed.

Lemma count_flag_app flag l1 l2 :
  count_flag flag (l1 ++ l2) = count_flag flag l1 + count_flag flag l2.
Proof.
  induction l1 as [|s l1 IH]; [reflexivity|]. cbn [app count_flag]. rewrite IH. lia.
Qed.

(** X20.  Marking a share lowers the number of available shares by one
    when the first share with the id was not used yet, and leaves it as it
    is when that share was used; so [hasEnoughShares], once false, stays
    false however many shares are marked. *)
Theorem markShareAsUsed_availability id this paper :
  markShareAsUsed id this = Normal paper ->
  (exists s,
     List.find (fun x => shareId x =? id) (shamirShares this) = Some s
     /\ count_flag false (shamirShares paper)
        = count_flag false (shamirShares this) - (if isUsed s then 0 else 1))
  /\ (length (getAvailableShares paper) <= length (getAvailableShares this))%nat
  /\ threshold paper = threshold this
  /\ (hasEnoughShares this = false -> hasEnoughShares paper = false).
Proof.
  unfold markShareAsUsed. intros H.
  destruct (use_first id (shamirShares this)) as [shares|] eqn:E; [|discriminate].
  injection H as <-. cbn [shamirShares set_shamirShares threshold].
  destruct (first_occurrence id (shamirShares this)) as (before & s & after & Hsplit & Hb & Hs).
  { intros Hall. apply use_first_none in Hall. congruence. }
  rewrite Hsplit, (use_first_found id before s after Hb Hs) in E. injection E as <-.
  assert (Hcount : count_flag false (before ++ set_isUsed true s :: after)
                   = count_flag false (shamirShares this) - (if isUsed s then 0 else 1)).
  { rewrite Hsplit, !count_flag_app. cbn [count_flag set_isUsed isUsed Bool.eqb].
    destruct (isUsed s); cbn [Bool.eqb]; lia. }
  assert (Hle : (length (getAvailableShares
                           (set_shamirShares (before ++ set_isUsed true s :: after) this))
                 <= length (getAvailableShares this))%nat).
  { unfold getAvailableShares. cbn [shamirShares set_shamirShares].
    pose proof (available_count (before ++ set_isUsed true s :: after)) as H1.
    pose proof (available_count (shamirShares this)) as H2.
    destruct (isUsed s); lia. }
  split; [|split; [exact Hle|split; [reflexivity|]]].
  - exists s. split; [|exact Hcount].
    rewrite Hsplit. apply find_first_match.
    + clear -Hb. induction Hb as [|x l Hx _ IH]; [reflexivity|].
      cbn [List.find]. rewrite (proj2 (Z.eqb_neq _ _) Hx). exact IH.
    + apply Z.eqb_eq, Hs.
  - unfold hasEnoughShares. cbn [threshold set_shamirShares].
    rewrite !Z.geb_leb, !Z.leb_gt. lia.
Qed.

(** X21.  A share added with an id that no share of the paper has is the
    one its id finds: it is available after [addShamirShare], and marking
    it leaves exactly the shares that were available before it was
    added. *)
Theorem addShamirShare_then_mark now id share holder this :
  Forall (fun s => shareId s <> id) (shamirShares this) ->
  getAvailableShares (addShamirShare now id share holder this)
  = getAvailableShares this
      ++ [{| shareId := id; ExamPaper.share := share; ExamPaper.holder := holder;
             distributedAt := now; isUsed := false |}]
  /\ exists paper,
       markShareAsUsed id (addShamirShare now id share holder this) = Normal paper
       /\ getAvailableShares paper = getAvailableShares this
       /\ length (shamirShares paper) = S (length (shamirShares this)).
Proof.
  intros Hfresh. split.
  - unfold getAvailableShares, addShamirShare. cbn [shamirShares set_shamirShares].
    rewrite List.filter_app. reflexivity.
  - eexists. split.
    + unfold markShareAsUsed, addShamirShare. cbn [shamirShares set_shamirShares].
      rewrite (use_first_found id (shamirShares this)
                 {| shareId := id; ExamPaper.share := share; ExamPaper.holder := holder;
                    distributedAt := now; isUsed := false |} [] Hfresh eq_refl).
      reflexivity.
    + unfold getAvailableShares.
      cbn [shamirShares set_shamirShares set_isUsed isUsed app].
      rewrite List.filter_app, length_app. cbn [List.filter negb isUsed length].
      split; [apply app_nil_r | lia].
Qed.

End ShareBookkeeping.

Section ShareWitnesses.
Import JS ExamPaper.


Lemma markShareAsUsed_again_witness :
  exists paper,
    markShareAsUsed 2 Reference.paper = Normal paper
    /\ markShareAsUsed 2 paper = Normal paper.
Proof.
  eexists. split; [reflexivity|].
  apply (markShareAsUsed_again 2 Reference.paper). reflexivity.
Defined.

Lemma markShareAsUsed_availability_witness :
  exists paper,
    markShareAsUsed 2 Reference.paper = Normal paper
    /\ (length (getAvailableShares paper) <= length (getAvailableShares Reference.paper))%nat.
Proof.
  eexists. split; [reflexivity|].
  apply (markShareAsUsed_availability 2 Reference.paper). reflexivity.
Defined.

Lemma addShamirShare_then_mark_witness :
  exists paper,
    markShareAsUsed 4 (addShamirShare 20 4 "04dd" "u4" Reference.paper) = Normal paper
    /\ getAvailableShares paper = getAvailableShares Reference.paper.
Proof.
  destruct (addShamirShare_then_mark 20 4 "04dd" "u4" Reference.paper)
    as (_ & paper & Hm & Ha & _).
  - repeat constructor; discriminate.
  - exists paper. split; [exact Hm | exact Ha].
Defined.

End ShareWitnesses.
